(** * AWS secrets engine: credential issuance and lease lifecycle

    A shallow embedding of the file of package [aws] that defines the
    [access_keys] secret: the username generator, the three STS issuance
    strategies, the durable IAM-user strategy with its write-ahead log,
    and the renew / revoke handlers.

    Calls to collaborators (storage, the WAL helpers of the framework, the
    IAM and STS clients, the lease configuration, the clock) are events of
    a small free monad; a run against an oracle records them in order.

    A last part embeds the name table that [enumer] generates for the
    type [MarshalingType] of package [keysutil]. *)

From Stdlib Require Import ZArith Ascii String List Bool Lia.
From Stdlib Require Import DecimalString.
From stdpp Require Import base option strings gmap list.
Import ListNotations.

Local Open Scope string_scope.
Local Open Scope list_scope.
Local Open Scope Z_scope.

(** ** Errors

    A Go [error] value.  [Errorf p e] is [fmt.Errorf(p + "%w", e)];
    [Wrap outer inner] is [errwrap.Wrap(outer, inner)]. *)

Inductive error : Type :=
| ErrorString (msg : string)
| Errorf (prefix : string) (inner : error)
| Wrap (outer inner : error).

Fixpoint Error (e : error) : string :=
  match e with
  | ErrorString msg => msg
  | Errorf prefix inner => prefix +:+ Error inner
  | Wrap outer _ => Error outer
  end.

(** The pair [(value, err)] of a fallible Go call. *)
Inductive result (A : Type) : Type :=
| Ok (a : A)
| Fail (err : error).
Arguments Ok {A} a.
Arguments Fail {A} err.

(** ** Data model *)

Definition Time := Z.       (* an instant, as reported by the provider or the clock *)
Definition Duration := Z.   (* time.Duration: int64 nanoseconds *)

(** [Type] is a keyword here, hence [um_Type]. *)
Record UsernameMetadata := {
  um_Type : string;
  DisplayName : string;
  PolicyName : string
}.

Record rootConfig := {
  UsernameTemplate : string
}.

Record configLease := {
  Lease : Duration;
  LeaseMax : Duration
}.

(** The fields of [awsRoleEntry] that issuance reads. *)
Record awsRoleEntry := {
  PolicyArns : list string;
  PolicyDocument : string;
  IAMGroups : list string;
  IAMTags : gmap string string;
  UserPath : string;
  PermissionsBoundaryARN : string
}.

Record walUser := {
  wal_UserName : string
}.

(** A value stored in a [map[string]interface{}]. *)
Inductive value : Type :=
| VNil
| VBool (b : bool)
| VString (s : string)
| VUint64 (n : Z)
| VRole (r : awsRoleEntry).

Record Secret := {
  TTL : Duration;
  MaxTTL : Duration;
  Renewable : bool;
  InternalData : gmap string value
}.

Record Response := {
  resp_Secret : option Secret;
  resp_Data : gmap string value
}.

(** [logical.ErrorResponse(text)]: a response without Secret whose data
    carries the message. *)
Definition ErrorResponse (text : string) : Response :=
  {| resp_Secret := None; resp_Data := {[ "error" := VString text ]} |}.

(** What a handler returns: the pair of a response pointer and an error. *)
Definition Returned : Type := option Response * option error.

Record Credentials := {
  AccessKeyId : string;
  SecretAccessKey : string;
  SessionToken : string;
  Expiration : Time
}.

Record AccessKey := {
  ak_AccessKeyId : string;
  ak_SecretAccessKey : string
}.

Record AssumeRoleOutput := {
  aro_Credentials : Credentials;
  aro_Arn : string
}.

Record CreateUserInput := {
  cu_UserName : string;
  cu_Path : string;
  cu_PermissionsBoundary : option string
}.

Record PolicyDescriptorType := {
  Arn : string
}.

Record GetFederationTokenInput := {
  gft_Name : string;
  gft_DurationSeconds : Z;
  gft_Policy : option string;
  gft_PolicyArns : list PolicyDescriptorType
}.

Record GetSessionTokenInput := {
  gst_DurationSeconds : Z;
  gst_SerialNumber : option string;
  gst_TokenCode : option string
}.

Record AssumeRoleInput := {
  ar_RoleSessionName : string;
  ar_RoleArn : string;
  ar_DurationSeconds : Z;
  ar_Policy : option string;
  ar_PolicyArns : list PolicyDescriptorType
}.

Definition secretAccessKeyType : string := "access_keys".
Definition storageKey : string := "config/root".

(** Modelled from the spec: the constant [federationTokenCred] is declared
    outside this file; the credential types are [iam_user],
    [assumed_role], [federation_token] and [session_token]. *)
Definition federationTokenCred : string := "federation_token".

(** ** normalizeDisplayName

    [regexp.MustCompile("[^a-zA-Z0-9+=,.@_-]").ReplaceAllString(s, "_")].
    The regexp engine walks the string rune by rune: a well-formed UTF-8
    sequence is one rune, any other byte is one (invalid) rune.  No rune
    above 0x7F is in the class, so each such rune becomes one underscore. *)

Definition byte_in (lo hi : nat) (c : ascii) : bool :=
  let n := nat_of_ascii c in (lo <=? n)%nat && (n <=? hi)%nat.

Definition allowed (c : ascii) : bool :=
  byte_in 97 122 c || byte_in 65 90 c || byte_in 48 57 c ||
  match c with
  | "+"%char | "="%char | ","%char | "."%char | "@"%char | "_"%char | "-"%char => true
  | _ => false
  end.

(** Width in bytes of the rune starting at lead byte [c] followed by
    [rest], as [utf8.DecodeRuneInString] computes it. *)
Definition rune_width (c : ascii) (rest : string) : nat :=
  let cont := byte_in 128 191 in
  let second (lo hi : nat) (size : nat) : nat :=
    match rest with
    | String s1 r1 =>
        if negb (byte_in lo hi s1) then 1%nat
        else match size with
             | 2%nat => 2%nat
             | _ =>
                 match r1 with
                 | String s2 r2 =>
                     if negb (cont s2) then 1%nat
                     else match size with
                          | 3%nat => 3%nat
                          | _ =>
                              match r2 with
                              | String s3 _ => if cont s3 then 4%nat else 1%nat
                              | EmptyString => 1%nat
                              end
                          end
                 | EmptyString => 1%nat
                 end
             end
    | EmptyString => 1%nat
    end in
  if byte_in 0 127 c then 1%nat
  else if byte_in 194 223 c then second 128%nat 191%nat 2%nat
  else if byte_in 224 224 c then second 160%nat 191%nat 3%nat
  else if byte_in 225 236 c then second 128%nat 191%nat 3%nat
  else if byte_in 237 237 c then second 128%nat 159%nat 3%nat
  else if byte_in 238 239 c then second 128%nat 191%nat 3%nat
  else if byte_in 240 240 c then second 144%nat 191%nat 4%nat
  else if byte_in 241 243 c then second 128%nat 191%nat 4%nat
  else if byte_in 244 244 c then second 128%nat 143%nat 4%nat
  else 1%nat.

(** [skip] counts the remaining bytes of a rune already replaced. *)
Fixpoint normalize_from (skip : nat) (s : string) : string :=
  match s with
  | EmptyString => EmptyString
  | String c rest =>
      match skip with
      | S k => normalize_from k rest
      | O =>
          if allowed c then String c (normalize_from 0 rest)
          else String "_" (normalize_from (rune_width c rest - 1) rest)
      end
  end.

Definition normalizeDisplayName (displayName : string) : string :=
  normalize_from 0 displayName.

(** ** convertPolicyARNs *)

Definition convertPolicyARNs (policyARNs : list string) : list PolicyDescriptorType :=
  map (fun arn => {| Arn := arn |}) policyARNs.

(** ** Helpers that live outside this file

    The template engine ([sdk/helper/template]), the default username
    template, JSON decoding of the stored root configuration, the policy
    document combiner, [awsutil.CheckAWSError], [time.Time.Sub], the
    conversion [uint64(d.Seconds())] and the lease options that
    [framework.Secret.Response] starts from are parameters of the
    development.

    Rendering a template is not a function of the template and the
    metadata alone: the functions of the engine ([random], [unix_time]
    and the like, which the default template uses) read a random source
    and the clock.  [Entropy] is what they yield during one rendering;
    [Generate] takes it as an explicit argument, so two renderings of the
    same template and metadata may differ. *)

Record Externals := {
  Tmpl : Type;
  NewTemplate : string -> result Tmpl;
  Entropy : Type;
  Generate : Tmpl -> UsernameMetadata -> Entropy -> result string;
  defaultUserNameTemplate : string;
  DecodeJSON : string -> result rootConfig;
  combinePolicyDocuments : list string -> result string;
  CheckAWSError : error -> option error;
  time_Sub : Time -> Time -> Duration;
  Seconds_uint64 : Duration -> Z;
  framework_TTL : Duration;
  framework_MaxTTL : Duration;
  framework_Renewable : bool
}.

Section UsernameGenerator.
Context (X : Externals).

(** What the random source and the clock of the template engine yield
    during the one rendering that a call of [genUsername] makes. *)
Context (entropy : Entropy X).

(** ** genUsername *)

Definition genUsername (displayName policyName userType usernameTemplate : string)
  : result string :=
  if bool_decide (userType = "iam_user") || bool_decide (userType = "assume_role") then
    match NewTemplate X usernameTemplate with
    | Fail err => Fail (Errorf "unable to initialize username template: " err)
    | Ok up =>
        let um := {| um_Type := "IAM";
                     DisplayName := normalizeDisplayName displayName;
                     PolicyName := normalizeDisplayName policyName |} in
        match Generate X up um entropy with
        | Fail err => Fail (Errorf "failed to generate username: " err)
        | Ok ret =>
            if (64 <? String.length ret)%nat then
              Fail (ErrorString "the username generated by the template exceeds the IAM username length limits of 64 chars")
            else Ok ret
        end
    end
  else if bool_decide (userType = "sts") then
    match NewTemplate X usernameTemplate with
    | Fail err => Fail (Errorf "unable to initialize username template: " err)
    | Ok up =>
        let um := {| um_Type := "STS"; DisplayName := ""; PolicyName := "" |} in
        match Generate X up um entropy with
        | Fail err => Fail (Errorf "failed to generate username: " err)
        | Ok ret =>
            if (32 <? String.length ret)%nat then
              Fail (ErrorString "the username generated by the template exceeds the STS username length limits of 32 chars")
            else Ok ret
        end
    end
  else Ok "".

End UsernameGenerator.

(** ** Collaborator calls

    Every operation the file performs on a collaborator, with the type of
    what the collaborator answers.  [getGroupPolicies] answers the group
    policy documents ([None] is the nil slice) and the group policy ARNs. *)

Inductive Call : Type -> Type :=
| clientIAM : Call (option error)
| clientSTS : Call (option error)
| storageGet (key : string) : Call (result (option string))
| getGroupPolicies (iamGroups : list string)
    : Call (result (option (list string) * list string))
| b_Lease : Call (result (option configLease))
| pathUserRollback (kind : string) (data : gmap string value) : Call (option error)
| PutWAL (kind : string) (data : walUser) : Call (result string)
| DeleteWAL (id : string) : Call (option error)
| CreateUser (input : CreateUserInput) : Call (option error)
| AttachUserPolicy (userName policyArn : string) : Call (option error)
| PutUserPolicy (userName policyName document : string) : Call (option error)
| AddUserToGroup (userName groupName : string) : Call (option error)
| TagUser (tags : list (string * string)) (userName : string) : Call (option error)
| CreateAccessKey (userName : string) : Call (result AccessKey)
| GetFederationToken (input : GetFederationTokenInput) : Call (result Credentials)
| GetSessionToken (input : GetSessionTokenInput) : Call (result Credentials)
| AssumeRole (input : AssumeRoleInput) : Call (result AssumeRoleOutput)
| timeNow : Call Time.

(** One collaborator call together with its answer. *)
Record Event := Ev {
  ev_type : Type;
  ev_call : Call ev_type;
  ev_ret : ev_type
}.
Arguments Ev {ev_type} ev_call ev_ret.

(** A program: a finite tree of calls ending in a value. *)
Inductive Prog (R : Type) : Type :=
| Ret (r : R)
| Vis (T : Type) (c : Call T) (k : T -> Prog R).
Arguments Ret {R} r.
Arguments Vis {R T} c k.

Fixpoint prog_bind {A B} (m : Prog A) (f : A -> Prog B) : Prog B :=
  match m with
  | Ret a => f a
  | Vis c k => Vis c (fun t => prog_bind (k t) f)
  end.

(** The body of a Go function: after each statement it has either
    executed a [return] (left) or goes on with a value (right). *)
Definition Fn (A : Type) : Type := Prog (Returned + A).

Definition fn_bind {A B} (f : A -> Fn B) (m : Fn A) : Fn B :=
  prog_bind m (fun x => match x with inl r => Ret (inl r) | inr a => f a end).

#[global] Instance Fn_ret : MRet Fn := fun A a => Ret (inr a).
#[global] Instance Fn_bind : MBind Fn := fun A B f m => fn_bind f m.

Definition return_ {A} (r : Returned) : Fn A := Ret (inl r).
Definition call {T} (c : Call T) : Fn T := Vis c (fun t => Ret (inr t)).
Definition lift {A} (p : Prog A) : Fn A := prog_bind p (fun a => Ret (inr a)).

(** [if err != nil { return h err }] *)
Definition check (err : option error) (h : error -> Returned) : Fn unit :=
  match err with
  | Some e => return_ (h e)
  | None => mret tt
  end.

(** [v, err := ...; if err != nil { return h err }] *)
Definition or_return {A} (r : result A) (h : error -> Returned) : Fn A :=
  match r with
  | Fail e => return_ (h e)
  | Ok a => mret a
  end.

(** [for _, x := range xs { body x }] *)
Fixpoint for_range {A} (xs : list A) (body : A -> Fn unit) : Fn unit :=
  match xs with
  | [] => mret tt
  | x :: rest => _ ← body x; for_range rest body
  end.

Definition func (body : Fn Returned) : Prog Returned :=
  prog_bind body (fun x => Ret (match x with inl r => r | inr r => r end)).

(** ** Running a program

    The world holds the write-ahead log and the calls made so far, oldest
    first.  The oracle answers a call knowing everything that happened
    before it. *)

Record World := {
  wal : gmap string (string * walUser);
  trace : list Event
}.

Definition Oracle : Type := forall T, Call T -> list Event -> T.

(** Modelled from the spec: [framework.PutWAL] and [framework.DeleteWAL]
    are not part of this file.  A successful [begin] persists the entry
    under the ledger id it returns; a successful [commit] deletes it; a
    failed one leaves the log as it was. *)
Definition wal_effect {T} (c : Call T) : T -> gmap string (string * walUser)
                                        -> gmap string (string * walUser) :=
  match c in Call T return T -> _ with
  | PutWAL kind data => fun r m =>
      match r with Ok id => <[id := (kind, data)]> m | Fail _ => m end
  | DeleteWAL id => fun r m =>
      match r with None => delete id m | Some _ => m end
  | _ => fun _ m => m
  end.

Definition step {T} (w : World) (c : Call T) (t : T) : World :=
  {| wal := wal_effect c t (wal w); trace := (trace w ++ [Ev c t])%list |}.

Fixpoint run {R} (o : Oracle) (p : Prog R) (w : World) : R * World :=
  match p with
  | Ret r => (r, w)
  | Vis c k => let t := o _ c (trace w) in run o (k t) (step w c t)
  end.

(** ** Ranging over a map

    Go ranges over a map in an order that the runtime chooses anew for
    every loop.  A [MapOrder] is the choice made during one run: for a
    map, its entries, each once, in the order the loop meets them. *)

Record MapOrder := {
  range_map : gmap string string -> list (string * string);
  range_map_entries : forall m, range_map m ≡ₚ map_to_list m
}.

Section Backend.
Context (X : Externals).

(** What one run of a handler takes from outside its arguments and its
    collaborators: the draws of the template engine and the order in
    which the runtime ranges over a map. *)
Context (entropy : Entropy X) (order : MapOrder).

(** [time.Until(t)]: [t.Sub(time.Now())]. *)
Definition time_Until (t : Time) : Fn Duration :=
  now ← call timeNow; mret (time_Sub X t now).

(** Modelled from the spec: [framework.Secret.Response] is not part of
    this file.  It builds the response around a fresh Secret that holds
    the given internal metadata; its lease fields start from the
    framework's defaults. *)
Definition SecretResponse (data internal : gmap string value) : Response :=
  {| resp_Secret := Some {| TTL := framework_TTL X;
                            MaxTTL := framework_MaxTTL X;
                            Renewable := framework_Renewable X;
                            InternalData := internal |};
     resp_Data := data |}.

Definition set_TTL (d : Duration) (s : Secret) : Secret :=
  {| TTL := d; MaxTTL := MaxTTL s; Renewable := Renewable s;
     InternalData := InternalData s |}.
Definition set_MaxTTL (d : Duration) (s : Secret) : Secret :=
  {| TTL := TTL s; MaxTTL := d; Renewable := Renewable s;
     InternalData := InternalData s |}.
Definition set_Renewable (b : bool) (s : Secret) : Secret :=
  {| TTL := TTL s; MaxTTL := MaxTTL s; Renewable := b;
     InternalData := InternalData s |}.

(** [resp.Secret.f = v] *)
Definition update_Secret (f : Secret -> Secret) (resp : Response) : Response :=
  {| resp_Secret := f <$> resp_Secret resp; resp_Data := resp_Data resp |}.

(** ** readConfig *)

Definition readConfig : Prog (result rootConfig) :=
  Vis (storageGet storageKey) (fun r =>
    Ret match r with
        | Fail err => Fail err
        | Ok None => Ok {| UsernameTemplate := "" |}
        | Ok (Some entry) =>
            match DecodeJSON X entry with
            | Fail err => Fail err
            | Ok connConfig => Ok connConfig
            end
        end).

(** ** getFederationToken *)

Definition getFederationToken
    (displayName policyName policy : string)
    (policyARNs iamGroups : list string) (lifeTimeInSeconds : Z) : Prog Returned :=
  func (
    r ← call (getGroupPolicies iamGroups);
    '(groupPolicies, groupPolicyARNs) ←
      or_return r (fun err => (Some (ErrorResponse (Error err)), None));
    policy ←
      match groupPolicies with
      | Some gp =>
          or_return (combinePolicyDocuments X (gp ++ [policy])%list)
            (fun err => (Some (ErrorResponse (Error err)), None))
      | None => mret policy
      end;
    let policyARNs :=
      if (0 <? length groupPolicyARNs)%nat then (policyARNs ++ groupPolicyARNs)%list
      else policyARNs in
    err ← call clientSTS;
    _ ← check err (fun err => (Some (ErrorResponse (Error err)), None));
    r ← lift readConfig;
    config ← or_return r
      (fun err => (None, Some (Errorf "unable to read configuration: " err)));
    let usernameTemplate :=
      if bool_decide (UsernameTemplate config = "") then defaultUserNameTemplate X
      else UsernameTemplate config in
    username ← or_return (genUsername X entropy displayName policyName "sts" usernameTemplate)
      (fun usernameError => (None, Some usernameError));
    let getTokenInput :=
      {| gft_Name := username;
         gft_DurationSeconds := lifeTimeInSeconds;
         gft_Policy := if (0 <? String.length policy)%nat then Some policy else None;
         gft_PolicyArns :=
           if (0 <? length policyARNs)%nat then convertPolicyARNs policyARNs else [] |} in
    if bool_decide (policy = "") && (length policyARNs =? 0)%nat then
      return_ (Some (ErrorResponse
                 ("must specify at least one of policy_arns or policy_document with "
                  +:+ federationTokenCred +:+ " credential_type")), None)
    else
    r ← call (GetFederationToken getTokenInput);
    tokenResp ← or_return r (fun err =>
      (Some (ErrorResponse ("Error generating STS keys: " +:+ Error err)),
       CheckAWSError X err));
    ttl ← time_Until (Expiration tokenResp);
    let resp := SecretResponse
      (<["access_key" := VString (AccessKeyId tokenResp)]>
       (<["secret_key" := VString (SecretAccessKey tokenResp)]>
       (<["security_token" := VString (SessionToken tokenResp)]>
       (<["session_token" := VString (SessionToken tokenResp)]>
       (<["ttl" := VUint64 (Seconds_uint64 X ttl)]> ∅)))))
      (<["username" := VString username]>
       (<["policy" := VString policy]>
       (<["is_sts" := VBool true]> ∅))) in
    let resp := update_Secret (set_TTL ttl) resp in
    let resp := update_Secret (set_Renewable false) resp in
    return_ (Some resp, None)).

(** ** getSessionToken *)

Definition getSessionToken
    (serialNumber mfaCode : string) (lifeTimeInSeconds : Z) : Prog Returned :=
  func (
    err ← call clientSTS;
    _ ← check err (fun err => (Some (ErrorResponse (Error err)), None));
    let getTokenInput :=
      {| gst_DurationSeconds := lifeTimeInSeconds;
         gst_SerialNumber :=
           if bool_decide (serialNumber = "") then None else Some serialNumber;
         gst_TokenCode :=
           if bool_decide (mfaCode = "") then None else Some mfaCode |} in
    r ← call (GetSessionToken getTokenInput);
    tokenResp ← or_return r (fun err =>
      (Some (ErrorResponse ("Error generating STS keys: " +:+ Error err)),
       CheckAWSError X err));
    ttl ← time_Until (Expiration tokenResp);
    let resp := SecretResponse
      (<["access_key" := VString (AccessKeyId tokenResp)]>
       (<["secret_key" := VString (SecretAccessKey tokenResp)]>
       (<["session_token" := VString (SessionToken tokenResp)]>
       (<["ttl" := VUint64 (Seconds_uint64 X ttl)]> ∅))))
      (<["is_sts" := VBool true]> ∅) in
    ttl' ← time_Until (Expiration tokenResp);
    let resp := update_Secret (set_TTL ttl') resp in
    let resp := update_Secret (set_Renewable false) resp in
    return_ (Some resp, None)).

(** ** assumeRole *)

Definition assumeRole
    (displayName roleName roleArn policy : string)
    (policyARNs iamGroups : list string) (lifeTimeInSeconds : Z)
    (roleSessionName : string) : Prog Returned :=
  func (
    r ← call (getGroupPolicies iamGroups);
    '(groupPolicies, groupPolicyARNs) ←
      or_return r (fun err => (Some (ErrorResponse (Error err)), None));
    policy ←
      match groupPolicies with
      | Some (g :: gs) =>
          or_return (combinePolicyDocuments X ((g :: gs) ++ [policy])%list)
            (fun err => (Some (ErrorResponse (Error err)), None))
      | _ => mret policy
      end;
    let policyARNs :=
      if (0 <? length groupPolicyARNs)%nat then (policyARNs ++ groupPolicyARNs)%list
      else policyARNs in
    err ← call clientSTS;
    _ ← check err (fun err => (Some (ErrorResponse (Error err)), None));
    r ← lift readConfig;
    config ← or_return r
      (fun err => (None, Some (Errorf "unable to read configuration: " err)));
    let usernameTemplate :=
      if bool_decide (UsernameTemplate config = "") then defaultUserNameTemplate X
      else UsernameTemplate config in
    roleSessionName ←
      (if bool_decide (roleSessionName = "") then
         or_return (genUsername X entropy displayName roleName "assume_role" usernameTemplate)
           (fun roleSessionNameError => (None, Some roleSessionNameError))
       else mret (normalizeDisplayName roleSessionName));
    let assumeRoleInput :=
      {| ar_RoleSessionName := roleSessionName;
         ar_RoleArn := roleArn;
         ar_DurationSeconds := lifeTimeInSeconds;
         ar_Policy := if bool_decide (policy = "") then None else Some policy;
         ar_PolicyArns :=
           if (0 <? length policyARNs)%nat then convertPolicyARNs policyARNs else [] |} in
    r ← call (AssumeRole assumeRoleInput);
    tokenResp ← or_return r (fun err =>
      (Some (ErrorResponse ("Error assuming role: " +:+ Error err)),
       CheckAWSError X err));
    let creds := aro_Credentials tokenResp in
    ttl ← time_Until (Expiration creds);
    let resp := SecretResponse
      (<["access_key" := VString (AccessKeyId creds)]>
       (<["secret_key" := VString (SecretAccessKey creds)]>
       (<["security_token" := VString (SessionToken creds)]>
       (<["session_token" := VString (SessionToken creds)]>
       (<["arn" := VString (aro_Arn tokenResp)]>
       (<["ttl" := VUint64 (Seconds_uint64 X ttl)]> ∅))))))
      (<["username" := VString roleSessionName]>
       (<["policy" := VString roleArn]>
       (<["is_sts" := VBool true]> ∅))) in
    let resp := update_Secret (set_TTL ttl) resp in
    let resp := update_Secret (set_Renewable false) resp in
    return_ (Some resp, None)).

(** ** secretAccessKeysCreate *)

Definition secretAccessKeysCreate
    (displayName policyName : string) (role : awsRoleEntry) : Prog Returned :=
  func (
    err ← call clientIAM;
    _ ← check err (fun err => (Some (ErrorResponse (Error err)), None));
    r ← lift readConfig;
    config ← or_return r
      (fun err => (None, Some (Errorf "unable to read configuration: " err)));
    let usernameTemplate :=
      if bool_decide (UsernameTemplate config = "") then defaultUserNameTemplate X
      else UsernameTemplate config in
    username ← or_return
      (genUsername X entropy displayName policyName "iam_user" usernameTemplate)
      (fun usernameError => (None, Some usernameError));
    (* Write to the WAL that this user will be created. *)
    r ← call (PutWAL "user" {| wal_UserName := username |});
    walID ← or_return r
      (fun err => (None, Some (Errorf "error writing WAL entry: " err)));
    let userPath :=
      if bool_decide (UserPath role = "") then "/" else UserPath role in
    let createUserRequest :=
      {| cu_UserName := username;
         cu_Path := userPath;
         cu_PermissionsBoundary :=
           if bool_decide (PermissionsBoundaryARN role = "") then None
           else Some (PermissionsBoundaryARN role) |} in
    (* Create the user *)
    err ← call (CreateUser createUserRequest);
    _ ← match err with
        | Some err =>
            walErr ← call (DeleteWAL walID);
            match walErr with
            | Some walErr =>
                let iamErr := Errorf "error creating IAM user: " err in
                return_ (None,
                         Some (Wrap (Errorf "failed to delete WAL entry: " walErr) iamErr))
            | None =>
                return_ (Some (ErrorResponse ("Error creating IAM user: " +:+ Error err)),
                         CheckAWSError X err)
            end
        | None => mret tt
        end;
    _ ← for_range (PolicyArns role) (fun arn =>
          (* Attach existing policy against user *)
          err ← call (AttachUserPolicy username arn);
          check err (fun err =>
            (Some (ErrorResponse ("Error attaching user policy: " +:+ Error err)),
             CheckAWSError X err)));
    _ ← (if bool_decide (PolicyDocument role = "") then mret tt
         else
           (* Add new inline user policy against user *)
           err ← call (PutUserPolicy username policyName (PolicyDocument role));
           check err (fun err =>
             (Some (ErrorResponse ("Error putting user policy: " +:+ Error err)),
              CheckAWSError X err)));
    _ ← for_range (IAMGroups role) (fun group =>
          (* Add user to IAM groups *)
          err ← call (AddUserToGroup username group);
          check err (fun err =>
            (Some (ErrorResponse ("Error adding user to group: " +:+ Error err)),
             CheckAWSError X err)));
    (* one tag per entry of the map, in the order the iteration yields *)
    let tags := range_map order (IAMTags role) in
    _ ← (if (0 <? length tags)%nat then
           err ← call (TagUser tags username);
           check err (fun err =>
             (Some (ErrorResponse ("Error adding tags to user: " +:+ Error err)),
              CheckAWSError X err))
         else mret tt);
    (* Create the keys *)
    r ← call (CreateAccessKey username);
    keyResp ← or_return r (fun err =>
      (Some (ErrorResponse ("Error creating access keys: " +:+ Error err)),
       CheckAWSError X err));
    (* Remove the WAL entry, we succeeded! *)
    err ← call (DeleteWAL walID);
    _ ← check err
      (fun err => (None, Some (Errorf "failed to commit WAL entry: " err)));
    (* Return the info! *)
    let resp := SecretResponse
      (<["access_key" := VString (ak_AccessKeyId keyResp)]>
       (<["secret_key" := VString (ak_SecretAccessKey keyResp)]>
       (<["session_token" := VNil]> ∅)))
      (<["username" := VString username]>
       (<["policy" := VRole role]>
       (<["is_sts" := VBool false]> ∅))) in
    r ← call b_Lease;
    let lease :=
      match r with
      | Ok (Some lease) => lease
      | _ => {| Lease := 0; LeaseMax := 0 |}
      end in
    let resp := update_Secret (set_TTL (Lease lease)) resp in
    let resp := update_Secret (set_MaxTTL (LeaseMax lease)) resp in
    return_ (Some resp, None)).

(** ** secretAccessKeysRenew

    [req.Secret] is the Secret under renewal; the response points to the
    same Secret, updated in place. *)

Definition secretAccessKeysRenew (secret : Secret) : Prog Returned :=
  func (
    (* STS already has a lifetime, and we don't support renewing it *)
    _ ← match InternalData secret !! "is_sts" with
        | Some (VBool isSTS) =>
            if isSTS then return_ (None, None) else mret tt
        | Some _ => mret tt
        | None => mret tt
        end;
    r ← call b_Lease;
    lease ← or_return r (fun err => (None, Some err));
    let lease :=
      match lease with
      | Some lease => lease
      | None => {| Lease := 0; LeaseMax := 0 |}
      end in
    let resp := {| resp_Secret := Some secret; resp_Data := ∅ |} in
    let resp := update_Secret (set_TTL (Lease lease)) resp in
    let resp := update_Secret (set_MaxTTL (LeaseMax lease)) resp in
    return_ (Some resp, None)).

(** ** secretAccessKeysRevoke *)

Definition secretAccessKeysRevoke (secret : Secret) : Prog Returned :=
  func (
    _ ← match InternalData secret !! "is_sts" with
        | Some (VBool isSTS) =>
            if isSTS then return_ (None, None) else mret tt
        | Some _ =>
            return_ (None, Some (ErrorString
              "secret has is_sts but value could not be understood"))
        | None => mret tt
        end;
    (* Get the username from the internal data *)
    username ←
      match InternalData secret !! "username" with
      | None =>
          return_ (None, Some (ErrorString "secret is missing username internal data"))
      | Some (VString username) => mret username
      | Some _ =>
          return_ (None, Some (ErrorString "secret is missing username internal data"))
      end;
    (* Use the user rollback mechanism to delete this user *)
    err ← call (pathUserRollback "user" {[ "username" := VString username ]});
    _ ← check err (fun err => (None, Some err));
    return_ (None, None)).

End Backend.

(** * Vocabulary of the properties *)

(** ** Worlds and events *)

(** The world after a list of events has happened. *)
Definition apply_events (w : World) (evs : list Event) : World :=
  fold_left (fun w e => step w (ev_call e) (ev_ret e)) evs w.

(** The error a call answered with, if it failed. *)
Definition answered_error (e : Event) : option error :=
  match e with
  | Ev c t =>
      match c in Call T return T -> option error with
      | clientIAM | clientSTS => fun t => t
      | storageGet _ => fun t => match t with Fail err => Some err | Ok _ => None end
      | getGroupPolicies _ => fun t => match t with Fail err => Some err | Ok _ => None end
      | b_Lease => fun t => match t with Fail err => Some err | Ok _ => None end
      | pathUserRollback _ _ => fun t => t
      | PutWAL _ _ => fun t => match t with Fail err => Some err | Ok _ => None end
      | DeleteWAL _ => fun t => t
      | CreateUser _ => fun t => t
      | AttachUserPolicy _ _ => fun t => t
      | PutUserPolicy _ _ _ => fun t => t
      | AddUserToGroup _ _ => fun t => t
      | TagUser _ _ => fun t => t
      | CreateAccessKey _ => fun t => match t with Fail err => Some err | Ok _ => None end
      | GetFederationToken _ => fun t => match t with Fail err => Some err | Ok _ => None end
      | GetSessionToken _ => fun t => match t with Fail err => Some err | Ok _ => None end
      | AssumeRole _ => fun t => match t with Fail err => Some err | Ok _ => None end
      | timeNow => fun _ => None
      end t
  end.

(** The provider's token-issuing operations. *)
Definition token_issuing (e : Event) : bool :=
  match ev_call e with
  | GetFederationToken _ | GetSessionToken _ | AssumeRole _ => true
  | _ => false
  end.

(** The principal an IAM call after creation provisions. *)
Definition provisioning_user (e : Event) : option string :=
  match ev_call e with
  | AttachUserPolicy u _ | PutUserPolicy u _ _ | AddUserToGroup u _
  | TagUser _ u | CreateAccessKey u => Some u
  | _ => None
  end.

(** The principal a mutating IAM call acts on. *)
Definition mutating_user (e : Event) : option string :=
  match ev_call e with
  | CreateUser input => Some (cu_UserName input)
  | _ => provisioning_user e
  end.

(** A successful [PutWAL]: kind, entry and the ledger id answered. *)
Definition wal_begun (e : Event) : option (string * walUser * string) :=
  match e with
  | Ev c t =>
      match c in Call T return T -> option (string * walUser * string) with
      | PutWAL kind data => fun t =>
          match t with Ok id => Some (kind, data, id) | Fail _ => None end
      | _ => fun _ => None
      end t
  end.

(** A [DeleteWAL]: the ledger id and the answer. *)
Definition wal_delete (e : Event) : option (string * option error) :=
  match e with
  | Ev c t =>
      match c in Call T return T -> option (string * option error) with
      | DeleteWAL id => fun t => Some (id, t)
      | _ => fun _ => None
      end t
  end.

(** A failed [CreateUser]: the request and the error. *)
Definition create_user_failed (e : Event) : option (CreateUserInput * error) :=
  match e with
  | Ev c t =>
      match c in Call T return T -> option (CreateUserInput * error) with
      | CreateUser input => fun t => pair input <$> t
      | _ => fun _ => None
      end t
  end.

(** The answer of a lease-configuration read. *)
Definition lease_read (e : Event) : option (result (option configLease)) :=
  match e with
  | Ev c t =>
      match c in Call T return T -> option (result (option configLease)) with
      | b_Lease => fun t => Some t
      | _ => fun _ => None
      end t
  end.

(** The text that prefixes the error of a failed provisioning call. *)
Definition step_message (e : Event) : string :=
  match ev_call e with
  | AttachUserPolicy _ _ => "Error attaching user policy: "
  | PutUserPolicy _ _ _ => "Error putting user policy: "
  | AddUserToGroup _ _ => "Error adding user to group: "
  | TagUser _ _ => "Error adding tags to user: "
  | CreateAccessKey _ => "Error creating access keys: "
  | _ => ""
  end.

(** ** Results *)

(** The handler returned a response that carries a Secret, and no error. *)
Definition returns_secret (r : Returned) (s : Secret) : Prop :=
  exists resp, r = (Some resp, None) /\ resp_Secret resp = Some s.

(** The handler surfaced an error: a Go error, or an error response. *)
Definition surfaced_error (r : Returned) : Prop :=
  (exists err, snd r = Some err) \/ (exists text, fst r = Some (ErrorResponse text)).

(** ** Username generation *)

(** Modelled from the spec: the length of a name in characters, one per
    UTF-8 rune as [utf8.RuneCountInString] counts them (a byte that
    starts no well-formed sequence is a rune of its own).  [skip] counts
    the remaining bytes of a rune already counted. *)
Fixpoint runes_from (skip : nat) (s : string) : nat :=
  match s with
  | EmptyString => 0%nat
  | String c rest =>
      match skip with
      | S k => runes_from k rest
      | O => S (runes_from (rune_width c rest - 1) rest)
      end
  end.

Definition characters (s : string) : nat := runes_from 0 s.

(** The ceiling that [genUsername] enforces for a recognized kind. *)
Definition length_cap (userType : string) : option nat :=
  if bool_decide (userType = "iam_user") || bool_decide (userType = "assume_role")
  then Some 64%nat
  else if bool_decide (userType = "sts") then Some 32%nat
  else None.

(** The metadata handed to the template for a recognized kind. *)
Definition metadata_for (userType displayName policyName : string) : UsernameMetadata :=
  if bool_decide (userType = "sts")
  then {| um_Type := "STS"; DisplayName := ""; PolicyName := "" |}
  else {| um_Type := "IAM";
          DisplayName := normalizeDisplayName displayName;
          PolicyName := normalizeDisplayName policyName |}.

Definition too_long_error (userType : string) : error :=
  if bool_decide (userType = "sts")
  then ErrorString "the username generated by the template exceeds the STS username length limits of 32 chars"
  else ErrorString "the username generated by the template exceeds the IAM username length limits of 64 chars".

(** ** Configuration and policies *)

(** The pure part of [readConfig]: from what storage answered to the
    configuration. *)
Definition config_of (X : Externals) (r : result (option string)) : result rootConfig :=
  match r with
  | Fail err => Fail err
  | Ok None => Ok {| UsernameTemplate := "" |}
  | Ok (Some entry) => DecodeJSON X entry
  end.

(** The username template an issuance uses under a configuration. *)
Definition template_of (X : Externals) (config : rootConfig) : string :=
  if bool_decide (UsernameTemplate config = "") then defaultUserNameTemplate X
  else UsernameTemplate config.

(** The policy document after the group documents were merged in, as
    [getFederationToken] computes it. *)
Definition merged_document (X : Externals) (groupPolicies : option (list string))
    (policy : string) : result string :=
  match groupPolicies with
  | Some gp => combinePolicyDocuments X (gp ++ [policy])
  | None => Ok policy
  end.

(** The message of the fail-closed check of [getFederationToken]. *)
Definition insufficient_policy : string :=
  "must specify at least one of policy_arns or policy_document with "
  +:+ federationTokenCred +:+ " credential_type".

(** ** Leases *)

Definition zero_lease : configLease := {| Lease := 0; LeaseMax := 0 |}.

(** The lease an issuance applies after reading the lease configuration. *)
Definition lease_or_zero (r : result (option configLease)) : configLease :=
  match r with
  | Ok (Some lease) => lease
  | _ => zero_lease
  end.

(** What renew answers once it goes on to the lease configuration. *)
Definition renewed (secret : Secret) (r : result (option configLease)) : Returned :=
  match r with
  | Fail err => (None, Some err)
  | Ok lease =>
      let l := default zero_lease lease in
      (Some {| resp_Secret := Some (set_MaxTTL (LeaseMax l) (set_TTL (Lease l) secret));
               resp_Data := ∅ |}, None)
  end.

(** ** Outcomes of a durable-user issuance *)

(** The request [secretAccessKeysCreate] sends to create the principal. *)
Definition create_request (username : string) (role : awsRoleEntry) : CreateUserInput :=
  {| cu_UserName := username;
     cu_Path := if bool_decide (UserPath role = "") then "/" else UserPath role;
     cu_PermissionsBoundary :=
       if bool_decide (PermissionsBoundaryARN role = "") then None
       else Some (PermissionsBoundaryARN role) |}.

(** The Secret a successful durable-user issuance returns. *)
Definition issued_secret (X : Externals) (username : string) (role : awsRoleEntry)
    (lease : configLease) : Secret :=
  {| TTL := Lease lease;
     MaxTTL := LeaseMax lease;
     Renewable := framework_Renewable X;
     InternalData := <["username" := VString username]>
                     (<["policy" := VRole role]>
                     (<["is_sts" := VBool false]> ∅)) |}.

(** A provisioning call for principal [u] that succeeded. *)
Definition provisioned (u : string) (e : Event) : Prop :=
  provisioning_user e = Some u /\ answered_error e = None.

(** The calls up to and including the ledger write, and up to and
    including the creation of the principal. *)
Definition begun (r : result (option string)) (u id : string) : list Event :=
  [Ev clientIAM None; Ev (storageGet storageKey) r;
   Ev (PutWAL "user" {| wal_UserName := u |}) (Ok id)].

Definition created (r : result (option string)) (u id : string) (role : awsRoleEntry)
  : list Event :=
  begun r u id ++ [Ev (CreateUser (create_request u role)) None].

(** Every way [secretAccessKeysCreate] can end: what it returns and the
    calls it made, in order. *)
Inductive CreateOutcome (X : Externals) (entropy : Entropy X) (displayName policyName : string)
    (role : awsRoleEntry) : Returned -> list Event -> Prop :=
| out_client err :
    CreateOutcome X entropy displayName policyName role
      (Some (ErrorResponse (Error err)), None)
      [Ev clientIAM (Some err)]
| out_config r err :
    config_of X r = Fail err ->
    CreateOutcome X entropy displayName policyName role
      (None, Some (Errorf "unable to read configuration: " err))
      [Ev clientIAM None; Ev (storageGet storageKey) r]
| out_username r config err :
    config_of X r = Ok config ->
    genUsername X entropy displayName policyName "iam_user" (template_of X config) = Fail err ->
    CreateOutcome X entropy displayName policyName role
      (None, Some err)
      [Ev clientIAM None; Ev (storageGet storageKey) r]
| out_begin r config u err :
    config_of X r = Ok config ->
    genUsername X entropy displayName policyName "iam_user" (template_of X config) = Ok u ->
    CreateOutcome X entropy displayName policyName role
      (None, Some (Errorf "error writing WAL entry: " err))
      [Ev clientIAM None; Ev (storageGet storageKey) r;
       Ev (PutWAL "user" {| wal_UserName := u |}) (Fail err)]
| out_create r config u id err d :
    config_of X r = Ok config ->
    genUsername X entropy displayName policyName "iam_user" (template_of X config) = Ok u ->
    CreateOutcome X entropy displayName policyName role
      (match d with
       | Some walErr =>
           (None, Some (Wrap (Errorf "failed to delete WAL entry: " walErr)
                             (Errorf "error creating IAM user: " err)))
       | None =>
           (Some (ErrorResponse ("Error creating IAM user: " +:+ Error err)),
            CheckAWSError X err)
       end)
      (begun r u id ++
       [Ev (CreateUser (create_request u role)) (Some err); Ev (DeleteWAL id) d])
| out_step r config u id steps e err :
    config_of X r = Ok config ->
    genUsername X entropy displayName policyName "iam_user" (template_of X config) = Ok u ->
    Forall (provisioned u) steps ->
    provisioning_user e = Some u ->
    answered_error e = Some err ->
    CreateOutcome X entropy displayName policyName role
      (Some (ErrorResponse (step_message e +:+ Error err)), CheckAWSError X err)
      ((created r u id role ++ steps) ++ [e])
| out_commit r config u id steps err :
    config_of X r = Ok config ->
    genUsername X entropy displayName policyName "iam_user" (template_of X config) = Ok u ->
    Forall (provisioned u) steps ->
    CreateOutcome X entropy displayName policyName role
      (None, Some (Errorf "failed to commit WAL entry: " err))
      ((created r u id role ++ steps) ++ [Ev (DeleteWAL id) (Some err)])
| out_success r config u id steps lease data :
    config_of X r = Ok config ->
    genUsername X entropy displayName policyName "iam_user" (template_of X config) = Ok u ->
    Forall (provisioned u) steps ->
    CreateOutcome X entropy displayName policyName role
      (Some {| resp_Secret := Some (issued_secret X u role (lease_or_zero lease));
               resp_Data := data |}, None)
      ((created r u id role ++ steps) ++ [Ev (DeleteWAL id) None; Ev b_Lease lease]).

(** ** A program logic for handlers

    [wp o m w Q]: running [m] from [w] against [o] ends in a state and
    world that satisfy [Q]. *)

Definition wp {A} (o : Oracle) (m : Fn A) (w : World)
    (Q : Returned + A -> World -> Prop) : Prop :=
  Q (fst (run o m w)) (snd (run o m w)).

(** What the issuance as a whole establishes. *)
Definition create_post (X : Externals) (entropy : Entropy X) (displayName policyName : string)
    (role : awsRoleEntry) (w : World) (x : Returned + Returned) (w' : World) : Prop :=
  exists evs, w' = apply_events w evs /\
    CreateOutcome X entropy displayName policyName role
      (match x with inl r => r | inr r => r end) evs.

(** Between the creation of the principal and the commit: the principal
    exists and every provisioning call so far succeeded. *)
Definition provisioning (role : awsRoleEntry) (w : World)
    (r : result (option string)) (u id : string) (w1 : World) : Prop :=
  exists steps, w1 = apply_events w (created r u id role ++ steps) /\
                Forall (provisioned u) steps.

(** ** Concrete collaborators and inputs

    Two template engines, oracles under which every call succeeds or one
    given call fails, and a few Secrets, used to run the handlers. *)

(** A template engine that renders the template text followed by the
    kind, the display name and what it draws at random. *)
Definition exampleX : Externals :=
  {| Tmpl := string;
     NewTemplate := fun t => Ok t;
     Entropy := string;
     Generate := fun t um drawn =>
       Ok (t +:+ um_Type um +:+ "-" +:+ DisplayName um +:+ drawn);
     defaultUserNameTemplate := "vault-";
     DecodeJSON := fun entry => Ok {| UsernameTemplate := entry |};
     combinePolicyDocuments := fun docs => Ok (String.concat "" docs);
     CheckAWSError := fun _ => None;
     time_Sub := Z.sub;
     Seconds_uint64 := fun d => d / 1000000000;
     framework_TTL := 0;
     framework_MaxTTL := 0;
     framework_Renewable := true |}.

(** A template engine that rejects every template. *)
Definition rejectingX : Externals :=
  {| Tmpl := string;
     NewTemplate := fun _ => Fail (ErrorString "template: parse error");
     Entropy := unit;
     Generate := fun _ _ _ => Fail (ErrorString "template: execution error");
     defaultUserNameTemplate := "";
     DecodeJSON := fun _ => Fail (ErrorString "invalid character");
     combinePolicyDocuments := fun _ => Fail (ErrorString "invalid character");
     CheckAWSError := fun _ => None;
     time_Sub := Z.sub;
     Seconds_uint64 := fun d => d / 1000000000;
     framework_TTL := 0;
     framework_MaxTTL := 0;
     framework_Renewable := true |}.

(** The runtime ranges over a map in the order of its stored entries,
    or in the reverse order. *)
Definition stored_order : MapOrder :=
  {| range_map := map_to_list;
     range_map_entries := fun m => Permutation_refl (map_to_list m) |}.

Definition reverse_order : MapOrder :=
  {| range_map := fun m => rev (map_to_list m);
     range_map_entries := fun m => Permutation_sym (Permutation_rev (map_to_list m)) |}.

(** A template of fifteen accented letters, two bytes each. *)
Definition accented_template : string :=
  String.concat ""
    (repeat (String (ascii_of_nat 195) (String (ascii_of_nat 169) EmptyString)) 15).

(** A role with two tags. *)
Definition taggedRole : awsRoleEntry :=
  {| PolicyArns := [];
     PolicyDocument := "";
     IAMGroups := [];
     IAMTags := <["team" := "storage"]> (<["env" := "prod"]> ∅);
     UserPath := "";
     PermissionsBoundaryARN := "" |}.

Definition exampleCreds : Credentials :=
  {| AccessKeyId := "ASIAEXAMPLE"; SecretAccessKey := "secret";
     SessionToken := "token"; Expiration := 4600 |}.

Definition all_ok : Oracle := fun T c _ =>
  match c in Call T return T with
  | clientIAM => None
  | clientSTS => None
  | storageGet _ => Ok None
  | getGroupPolicies _ => Ok (None, [])
  | b_Lease => Ok (Some {| Lease := 3600; LeaseMax := 7200 |})
  | pathUserRollback _ _ => None
  | PutWAL _ _ => Ok "wal-1"
  | DeleteWAL _ => None
  | CreateUser _ => None
  | AttachUserPolicy _ _ => None
  | PutUserPolicy _ _ _ => None
  | AddUserToGroup _ _ => None
  | TagUser _ _ => None
  | CreateAccessKey _ => Ok {| ak_AccessKeyId := "AKIAEXAMPLE"; ak_SecretAccessKey := "secret" |}
  | GetFederationToken _ => Ok exampleCreds
  | GetSessionToken _ => Ok exampleCreds
  | AssumeRole _ =>
      Ok {| aro_Credentials := exampleCreds; aro_Arn := "arn:aws:sts::1:assumed-role/r/s" |}
  | timeNow => 1000
  end.

(** The provider refuses to create the principal; everything else succeeds. *)
Definition create_fails : Oracle := fun T c history =>
  match c in Call T return T -> T with
  | CreateUser _ => fun _ => Some (ErrorString "EntityAlreadyExists")
  | _ => fun answer => answer
  end (all_ok T c history).

(** The provider refuses to attach a policy; everything else succeeds. *)
Definition attach_fails : Oracle := fun T c history =>
  match c in Call T return T -> T with
  | AttachUserPolicy _ _ => fun _ => Some (ErrorString "AccessDenied")
  | _ => fun answer => answer
  end (all_ok T c history).

(** The lease configuration cannot be read; everything else succeeds. *)
Definition lease_fails : Oracle := fun T c history =>
  match c in Call T return T -> T with
  | b_Lease => fun _ => Fail (ErrorString "storage: connection refused")
  | _ => fun answer => answer
  end (all_ok T c history).

Definition empty_world : World := {| wal := ∅; trace := [] |}.

Definition exampleRole : awsRoleEntry :=
  {| PolicyArns := ["arn:aws:iam::aws:policy/ReadOnlyAccess"];
     PolicyDocument := "";
     IAMGroups := [];
     IAMTags := ∅;
     UserPath := "";
     PermissionsBoundaryARN := "" |}.

Definition durable_secret : Secret :=
  {| TTL := 0; MaxTTL := 0; Renewable := true;
     InternalData := <["username" := VString "vault-IAM-alice"]>
                     (<["is_sts" := VBool false]> ∅) |}.

(** A Secret whose [is_sts] entry holds the string [true] rather than a
    boolean. *)
Definition malformed_secret : Secret :=
  {| TTL := 0; MaxTTL := 0; Renewable := true;
     InternalData := <["is_sts" := VString "true"]>
                     (<["username" := VString "vault-IAM-alice"]> ∅) |}.

(** * Vocabulary of the further properties *)

(** ** Inputs of the token-issuing calls *)

Definition federation_input (e : Event) : option GetFederationTokenInput :=
  match ev_call e with
  | GetFederationToken input => Some input
  | _ => None
  end.

Definition session_input (e : Event) : option GetSessionTokenInput :=
  match ev_call e with
  | GetSessionToken input => Some input
  | _ => None
  end.


(** The input [getSessionToken] builds from its arguments. *)
Definition session_request (serialNumber mfaCode : string) (lifeTimeInSeconds : Z)
  : GetSessionTokenInput :=
  {| gst_DurationSeconds := lifeTimeInSeconds;
     gst_SerialNumber := if bool_decide (serialNumber = "") then None else Some serialNumber;
     gst_TokenCode := if bool_decide (mfaCode = "") then None else Some mfaCode |}.

(** ** The provisioning of a durable user, call by call *)

(** A provisioning call that answered without error. *)
Definition succeeded (c : Call (option error)) : Event := Ev c None.

(** The provisioning calls of an issuance, in the order the code makes
    them: one per policy ARN, the inline policy if there is a document,
    one per group, the tags if there are any, listed in the order in
    which the run ranges over the tag map of the role. *)
Definition provisioning_plan (order : MapOrder) (u policyName : string)
    (role : awsRoleEntry) : list (Call (option error)) :=
  map (AttachUserPolicy u) (PolicyArns role) ++
  (if bool_decide (PolicyDocument role = "") then []
   else [PutUserPolicy u policyName (PolicyDocument role)]) ++
  map (AddUserToGroup u) (IAMGroups role) ++
  (if (0 <? length (range_map order (IAMTags role)))%nat
   then [TagUser (range_map order (IAMTags role)) u] else []).

(** What the issuance returns when provisioning call [c] fails. *)
Definition step_failure (X : Externals) (c : Call (option error)) (err : error)
  : Returned :=
  (Some (ErrorResponse (step_message (Ev c None) +:+ Error err)), CheckAWSError X err).

(** [m] makes the calls of [plan] in order and stops at the first that
    fails, returning its error. *)
Definition performs (X : Externals) (m : Fn unit) (plan : list (Call (option error)))
  : Prop :=
  forall (o : Oracle) (w : World),
    (fst (run o m w) = inr tt /\
     snd (run o m w) = apply_events w (map succeeded plan)) \/
    (exists pre c post err,
       plan = pre ++ c :: post /\
       fst (run o m w) = inl (step_failure X c err) /\
       snd (run o m w) = apply_events w (map succeeded pre ++ [Ev c (Some err)])).

(** A [CreateUser] that succeeded: the principal created. *)
Definition user_created (e : Event) : option string :=
  match e with
  | Ev c t =>
      match c in Call T return T -> option string with
      | CreateUser input => fun t =>
          match t with None => Some (cu_UserName input) | Some _ => None end
      | _ => fun _ => None
      end t
  end.

(** The response of a successful durable-user issuance. *)
Definition issued_response (X : Externals) (u : string) (role : awsRoleEntry)
    (key : AccessKey) (lease : configLease) : Response :=
  {| resp_Secret := Some (issued_secret X u role lease);
     resp_Data := <["access_key" := VString (ak_AccessKeyId key)]>
                  (<["secret_key" := VString (ak_SecretAccessKey key)]>
                  (<["session_token" := VNil]> ∅)) |}.

(** Every way [secretAccessKeysCreate] can end once the principal is
    created, with the exact calls made after the creation. *)
Inductive ProvisioningOutcome (X : Externals) (order : MapOrder) (u id policyName : string)
    (role : awsRoleEntry) : Returned -> list Event -> Prop :=
| prov_stopped pre c post err :
    provisioning_plan order u policyName role = pre ++ c :: post ->
    ProvisioningOutcome X order u id policyName role
      (step_failure X c err)
      (map succeeded pre ++ [Ev c (Some err)])
| prov_key_failed err :
    ProvisioningOutcome X order u id policyName role
      (Some (ErrorResponse ("Error creating access keys: " +:+ Error err)),
       CheckAWSError X err)
      (map succeeded (provisioning_plan order u policyName role) ++
       [Ev (CreateAccessKey u) (Fail err)])
| prov_commit_failed key err :
    ProvisioningOutcome X order u id policyName role
      (None, Some (Errorf "failed to commit WAL entry: " err))
      (map succeeded (provisioning_plan order u policyName role) ++
       [Ev (CreateAccessKey u) (Ok key); Ev (DeleteWAL id) (Some err)])
| prov_success key lease :
    ProvisioningOutcome X order u id policyName role
      (Some (issued_response X u role key (lease_or_zero lease)), None)
      (map succeeded (provisioning_plan order u policyName role) ++
       [Ev (CreateAccessKey u) (Ok key); Ev (DeleteWAL id) None; Ev b_Lease lease]).

(** What the issuance establishes: it ended before the principal
    existed, or it created the principal and provisioned it as above. *)
Definition script_post (X : Externals) (order : MapOrder) (displayName policyName : string)
    (role : awsRoleEntry) (w : World) (x : Returned + Returned) (w' : World) : Prop :=
  let ret := match x with inl r => r | inr r => r end in
  (exists evs, w' = apply_events w evs /\
               Forall (fun e => user_created e = None) evs /\
               (forall s, ~ returns_secret ret s)) \/
  (exists r u id rest,
     w' = apply_events w (created r u id role ++ rest) /\
     ProvisioningOutcome X order u id policyName role ret rest).

(** The ledger id a successful [PutWAL] answered, and the ledger id a
    [DeleteWAL] was asked to delete. *)
Definition ledger_id_written (e : Event) : option string :=
  snd <$> wal_begun e.

Definition ledger_id_deleted (e : Event) : option string :=
  fst <$> wal_delete e.

(** A [storage.Get]: the key read and the answer. *)
Definition config_read (e : Event) : option (string * result (option string)) :=
  match e with
  | Ev c t =>
      match c in Call T return T -> option (string * result (option string)) with
      | storageGet key => fun t => Some (key, t)
      | _ => fun _ => None
      end t
  end.

(** The request of a [CreateUser], whatever it answered. *)
Definition create_user_input (e : Event) : option CreateUserInput :=
  match ev_call e with
  | CreateUser input => Some input
  | _ => None
  end.

(** A call that reaches the provider to issue a token or to change a
    principal, or that writes the ledger. *)
Definition reaches_provider (e : Event) : Prop :=
  token_issuing e = true \/ mutating_user e <> None \/ ledger_id_written e <> None.

(** ** convertPolicyARNs, slot by slot

    The function as the source writes it: a slice of [size] nil pointers,
    filled by index while ranging over the ARNs. *)
Definition convertPolicyARNs_slots (policyARNs : list string)
  : list (option PolicyDescriptorType) :=
  let size := length policyARNs in
  let retval := replicate size None in
  fold_left (fun retval '(i, arn) => <[i := Some {| Arn := arn |}]> retval)
            (imap pair policyARNs) retval.

(** * Package keysutil: the names of the marshaling types

    The code that [enumer] generates for the type [MarshalingType].  The
    declaration of the type is not part of the generated file: the model
    takes the integer type it is declared as, its width in bits and its
    signedness, as parameters.  A run-time panic (an index out of range)
    is the result [None]. *)

Section MarshalingType.
Context (bits : nat) (signed : bool).

(** The arithmetic of the type: a result is brought back into its range,
    two's complement for a signed type. *)
Definition in_type (z : Z) : Z :=
  if signed
  then (z + 2 ^ (Z.of_nat bits - 1)) mod 2 ^ Z.of_nat bits - 2 ^ (Z.of_nat bits - 1)
  else z mod 2 ^ Z.of_nat bits.

Definition _MarshalingTypeName : string := "asn1jws".

Definition _MarshalingTypeIndex : list Z := [0; 4; 7].

(** [a[i]] *)
Definition at_index {A} (a : list A) (i : Z) : option A :=
  if i <? 0 then None else a !! Z.to_nat i.

(** [s[lo:hi]] *)
Definition slice (s : string) (lo hi : Z) : option string :=
  if (0 <=? lo) && (lo <=? hi) && (hi <=? Z.of_nat (String.length s))
  then Some (substring (Z.to_nat lo) (Z.to_nat (hi - lo)) s)
  else None.

(** [fmt.Sprintf("MarshalingType(%d)", v)] *)
Definition Sprintf_MarshalingType (v : Z) : string :=
  "MarshalingType(" +:+ NilZero.string_of_int (Z.to_int v) +:+ ")".

(** The method [String]. *)
Definition MarshalingType_String (i : Z) : option string :=
  let i := in_type (i - 1) in
  if Z.of_nat (length _MarshalingTypeIndex) - 1 <=? i then
    Some (Sprintf_MarshalingType (in_type (i + 1)))
  else
    lo ← at_index _MarshalingTypeIndex i;
    hi ← at_index _MarshalingTypeIndex (in_type (i + 1));
    slice _MarshalingTypeName lo hi.

Definition _MarshalingTypeValues : list Z := [1; 2].

(** The keys are the constant slices [0:4] and [4:7] of the name string. *)
Definition _MarshalingTypeNameToValueMap : gmap string Z :=
  <[substring 0 4 _MarshalingTypeName := 1]>
  (<[substring 4 3 _MarshalingTypeName := 2]> ∅).

Definition MarshalingTypeString (s : string) : Z * option error :=
  match _MarshalingTypeNameToValueMap !! s with
  | Some val => (val, None)
  | None => (0, Some (ErrorString (s +:+ " does not belong to MarshalingType values")))
  end.

Definition MarshalingTypeValues : list Z := _MarshalingTypeValues.

Definition IsAMarshalingType (i : Z) : bool :=
  (fix range (vs : list Z) : bool :=
     match vs with
     | [] => false
     | v :: vs => if i =? v then true else range vs
     end) _MarshalingTypeValues.

End MarshalingType.

(** * Properties *)

(** ** Sanitized names *)

Example normalize_ascii : normalizeDisplayName "al ice/bob@x" = "al_ice_bob@x".
Proof. reflexivity. Qed.

(** The two bytes of a rune outside the class become one underscore;
    a stray continuation byte becomes one of its own. *)
Example normalize_multibyte :
  normalizeDisplayName
    (String (ascii_of_nat 97)
       (String (ascii_of_nat 195) (String (ascii_of_nat 169)
          (String (ascii_of_nat 169) "b"))))
  = "a__b".
Proof. reflexivity. Qed.

Lemma normalize_from_allowed (s : string) (skip : nat) :
  Forall (fun c => allowed c = true) (list_ascii_of_string (normalize_from skip s)).
Proof.
  revert skip. induction s as [| c rest IH]; intros skip; cbn [normalize_from].
  - constructor.
  - destruct skip as [| k]; [| apply IH].
    destruct (allowed c) eqn:Hc; cbn [list_ascii_of_string];
      constructor; auto.
Qed.

(** Every byte of a sanitized name is in the class. *)
Lemma normalizeDisplayName_allowed (displayName : string) :
  Forall (fun c => allowed c = true)
    (list_ascii_of_string (normalizeDisplayName displayName)).
Proof. apply normalize_from_allowed. Qed.

(** ** Running binds, calls and events *)

Lemma run_prog_bind {A B} (o : Oracle) (m : Prog A) (f : A -> Prog B) (w : World) :
  run o (prog_bind m f) w = run o (f (fst (run o m w))) (snd (run o m w)).
Proof.
  revert w. induction m as [a | T c k IH]; intros w; cbn; [reflexivity | apply IH].
Qed.

Lemma run_fn_bind {A B} (o : Oracle) (m : Fn A) (f : A -> Fn B) (w : World) :
  run o (m ≫= f) w =
  match fst (run o m w) with
  | inl r => (inl r, snd (run o m w))
  | inr a => run o (f a) (snd (run o m w))
  end.
Proof.
  unfold mbind, Fn_bind, fn_bind. rewrite run_prog_bind.
  destruct (fst (run o m w)); reflexivity.
Qed.

Lemma run_func (o : Oracle) (body : Fn Returned) (w : World) :
  run o (func body) w =
  (match fst (run o body w) with inl r => r | inr r => r end, snd (run o body w)).
Proof. unfold func. rewrite run_prog_bind. reflexivity. Qed.

Lemma run_readConfig (X : Externals) (o : Oracle) (w : World) :
  run o (readConfig X) w =
  (config_of X (o _ (storageGet storageKey) (trace w)),
   step w (storageGet storageKey) (o _ (storageGet storageKey) (trace w))).
Proof.
  unfold readConfig, config_of. cbn.
  destruct (o _ (storageGet storageKey) (trace w)) as [[entry |] | err]; cbn;
    [destruct (DecodeJSON X entry) | |]; reflexivity.
Qed.

Lemma apply_events_app w evs1 evs2 :
  apply_events w (evs1 ++ evs2)%list = apply_events (apply_events w evs1) evs2.
Proof. apply fold_left_app. Qed.

Lemma trace_apply_events w evs :
  trace (apply_events w evs) = (trace w ++ evs)%list.
Proof.
  revert w. induction evs as [| [T c t] evs IH]; intros w; cbn.
  - symmetry. apply app_nil_r.
  - unfold apply_events in IH. rewrite IH. cbn. rewrite <- app_assoc. reflexivity.
Qed.

Lemma step_first (w : World) {T} (c : Call T) (t : T) :
  step w c t = apply_events w [Ev c t].
Proof. reflexivity. Qed.

Lemma apply_events_step (w : World) (evs : list Event) {T} (c : Call T) (t : T) :
  step (apply_events w evs) c t = apply_events w (evs ++ [Ev c t]).
Proof. rewrite apply_events_app. reflexivity. Qed.

(** ** Symbolic execution of a handler *)

(** Rewrites a world reached by successive steps as the events applied
    to the initial world. *)
Ltac reify_world := rewrite ?step_first, <- ?apply_events_app; cbn [app].

(** Runs the handler in hypothesis [H], splitting on every answer and
    every test on the way. *)
Ltac exec H :=
  repeat (cbn -[insert genUsername] in H; unfold or_return, check in H;
          match type of H with
          | context [match ?x with _ => _ end] =>
              lazymatch x with
              | context [match _ with _ => _ end] => fail
              | _ => destruct x eqn:?
              end
          end);
  cbn -[insert genUsername] in H;
  try (injection H as <- <-); cbn -[insert genUsername].

(** Closes a leaf in which the handler did not return a Secret. *)
Ltac no_secret H :=
  let resp := fresh "resp" in
  let Hres := fresh "Hres" in
  let Hs := fresh "Hs" in
  destruct H as (resp & Hres & Hs);
  solve [discriminate Hres
        | injection Hres; intros; subst; discriminate Hs].

Ltac forall_list :=
  repeat first [apply List.Forall_nil | apply List.Forall_cons; [cbn; auto |]].

(** ** Username generation *)

(** A name has at most as many characters as bytes. *)
Lemma runes_from_length (s : string) (skip : nat) :
  (runes_from skip s + Nat.min skip (String.length s) <= String.length s)%nat.
Proof.
  revert skip. induction s as [| c rest IH]; intros skip; cbn [runes_from String.length].
  - lia.
  - destruct skip as [| k].
    + specialize (IH (rune_width c rest - 1)%nat). lia.
    + specialize (IH k). lia.
Qed.

(** C4: for the kinds [iam_user] and [assume_role] the cap is 64, for
    [sts] it is 32, counted as Go's [len] counts (bytes of the string).
    Whenever the template engine renders a name, with what it draws
    during that rendering, a name above the cap makes [genUsername] fail
    with the too-long error of that kind (no name is returned, so nothing
    is truncated); this is so in particular for a name of more characters
    than the cap.  A name within the cap, in bytes, is returned exactly
    as rendered: the result is a function of the inputs and of that
    rendering. *)
Theorem C4_username_length_cap (X : Externals) (entropy : Entropy X)
    (displayName policyName userType usernameTemplate : string)
    (cap : nat) (up : Tmpl X) (rendered : string) :
  length_cap userType = Some cap ->
  NewTemplate X usernameTemplate = Ok up ->
  Generate X up (metadata_for userType displayName policyName) entropy = Ok rendered ->
  (length_cap "iam_user" = Some 64%nat /\ length_cap "assume_role" = Some 64%nat /\
   length_cap "sts" = Some 32%nat) /\
  ((cap < String.length rendered)%nat ->
     genUsername X entropy displayName policyName userType usernameTemplate
     = Fail (too_long_error userType)) /\
  ((cap < characters rendered)%nat ->
     genUsername X entropy displayName policyName userType usernameTemplate
     = Fail (too_long_error userType)) /\
  ((String.length rendered <= cap)%nat ->
     genUsername X entropy displayName policyName userType usernameTemplate = Ok rendered).
Proof.
  intros Hcap Hnew Hgen.
  enough ((length_cap "iam_user" = Some 64%nat /\ length_cap "assume_role" = Some 64%nat /\
           length_cap "sts" = Some 32%nat) /\
          ((cap < String.length rendered)%nat ->
           genUsername X entropy displayName policyName userType usernameTemplate
           = Fail (too_long_error userType)) /\
          ((String.length rendered <= cap)%nat ->
           genUsername X entropy displayName policyName userType usernameTemplate
           = Ok rendered)) as (Hcaps & Hlong & Hshort).
  { split; [exact Hcaps |]. split; [exact Hlong |]. split; [| exact Hshort].
    intros Hchars. apply Hlong.
    pose proof (runes_from_length rendered 0). unfold characters in Hchars. lia. }
  revert Hcap Hnew Hgen.
  unfold length_cap, metadata_for, too_long_error, genUsername.
  intros Hcap Hnew Hgen. split; [repeat split |].
  destruct (bool_decide (userType = "iam_user") || bool_decide (userType = "assume_role"))
    eqn:Hiam.
  - assert (bool_decide (userType = "sts") = false) as Hsts.
    { apply bool_decide_eq_false. apply orb_true_iff in Hiam as [H | H];
        apply bool_decide_eq_true in H; subst; discriminate. }
    rewrite Hsts in *. rewrite Hnew, Hgen. injection Hcap as <-.
    split; intros Hlen.
    + apply Nat.ltb_lt in Hlen. rewrite Hlen. reflexivity.
    + apply Nat.ltb_ge in Hlen. rewrite Hlen. reflexivity.
  - destruct (bool_decide (userType = "sts")) eqn:Hsts; [| discriminate].
    rewrite Hnew, Hgen. injection Hcap as <-.
    split; intros Hlen.
    + apply Nat.ltb_lt in Hlen. rewrite Hlen. reflexivity.
    + apply Nat.ltb_ge in Hlen. rewrite Hlen. reflexivity.
Qed.

Lemma C4_username_length_cap_witness :
  genUsername exampleX "" "alice" "readonly" "iam_user" "vault-" = Ok "vault-IAM-alice" /\
  genUsername exampleX "" "alice" "readonly" "sts" "vault-federation-token-for-the-team-"
  = Fail (too_long_error "sts").
Proof.
  split.
  - apply (C4_username_length_cap exampleX "" "alice" "readonly" "iam_user" "vault-"
             64%nat "vault-" "vault-IAM-alice" eq_refl eq_refl eq_refl).
    vm_compute. lia.
  - apply (C4_username_length_cap exampleX "" "alice" "readonly" "sts"
             "vault-federation-token-for-the-team-" 32%nat
             "vault-federation-token-for-the-team-"
             "vault-federation-token-for-the-team-STS-" eq_refl eq_refl eq_refl).
    vm_compute. lia.
Defined.

(** Counterexample to C4.  The same template, names and kind give two
    different names when the engine draws differently during the two
    renderings, so the same inputs do not always yield the same output.
    And a rendering of 19 characters, within the cap of 32, is refused
    for the kind [sts], because it is 34 bytes long. *)
Lemma C4_same_inputs_different_names :
  (genUsername exampleX "-1712000000-qY3x" "alice" "readonly" "iam_user" "vault-"
   = Ok "vault-IAM-alice-1712000000-qY3x" /\
   genUsername exampleX "-1712000007-Lm0p" "alice" "readonly" "iam_user" "vault-"
   = Ok "vault-IAM-alice-1712000007-Lm0p" /\
   "vault-IAM-alice-1712000000-qY3x" <> "vault-IAM-alice-1712000007-Lm0p") /\
  (exists rendered,
     Generate exampleX accented_template (metadata_for "sts" "alice" "readonly") ""
     = Ok rendered /\
     characters rendered = 19%nat /\ String.length rendered = 34%nat /\
     genUsername exampleX "" "alice" "readonly" "sts" accented_template
     = Fail (too_long_error "sts")).
Proof.
  split.
  - split; [reflexivity |]. split; [reflexivity | discriminate].
  - eexists. split; [reflexivity |]. split; [reflexivity |]. split; reflexivity.
Defined.

(** C9: for a user type other than [iam_user], [assume_role] and [sts],
    [genUsername] returns the empty string and no error, whatever the
    template engine, the template and the names are: nothing is
    rendered, sanitized or measured. *)
Theorem C9_unrecognized_kind_yields_empty (X : Externals) (entropy : Entropy X)
    (displayName policyName userType usernameTemplate : string) :
  userType <> "iam_user" -> userType <> "assume_role" -> userType <> "sts" ->
  genUsername X entropy displayName policyName userType usernameTemplate = Ok "".
Proof.
  intros H1 H2 H3. unfold genUsername.
  rewrite !bool_decide_eq_false_2 by assumption. reflexivity.
Qed.

Lemma C9_unrecognized_kind_witness :
  genUsername rejectingX tt "al ice" "readonly" "federation_token" "{{" = Ok "".
Proof.
  apply (C9_unrecognized_kind_yields_empty rejectingX tt); discriminate.
Defined.

(** ** Renew *)

Lemma renew_not_sts (o : Oracle) (w : World) (secret : Secret) :
  InternalData secret !! "is_sts" <> Some (VBool true) ->
  run o (secretAccessKeysRenew secret) w =
  (renewed secret (o _ b_Lease (trace w)), step w b_Lease (o _ b_Lease (trace w))).
Proof.
  intros Hsts. unfold secretAccessKeysRenew, renewed.
  destruct (InternalData secret !! "is_sts") as [[| [|] | | |] |]; try congruence;
    cbn; destruct (o _ b_Lease (trace w)) as [[l |] | err]; reflexivity.
Qed.

(** C6: on a Secret whose [is_sts] is [true], renew returns no response
    and no error and calls no collaborator.  On every other Secret it
    reads the lease configuration, exactly once and nothing else: if the
    read fails its error is returned; otherwise the response carries the
    Secret with TTL and max-TTL reset to the configured lease (the zero
    lease when none is configured), its other fields unchanged. *)
Theorem C6_renew (o : Oracle) (w : World) (secret : Secret) :
  (InternalData secret !! "is_sts" = Some (VBool true) ->
     run o (secretAccessKeysRenew secret) w = ((None, None), w)) /\
  (InternalData secret !! "is_sts" <> Some (VBool true) ->
     let r := o _ b_Lease (trace w) in
     snd (run o (secretAccessKeysRenew secret) w) = apply_events w [Ev b_Lease r] /\
     (forall err, r = Fail err ->
        fst (run o (secretAccessKeysRenew secret) w) = (None, Some err)) /\
     (forall lease, r = Ok lease ->
        exists resp s,
          fst (run o (secretAccessKeysRenew secret) w) = (Some resp, None) /\
          resp_Secret resp = Some s /\
          TTL s = Lease (default zero_lease lease) /\
          MaxTTL s = LeaseMax (default zero_lease lease) /\
          Renewable s = Renewable secret /\
          InternalData s = InternalData secret)).
Proof.
  split.
  - intros Hsts. unfold secretAccessKeysRenew. rewrite Hsts. reflexivity.
  - intros Hsts r. rewrite (renew_not_sts o w secret Hsts). fold r. cbn.
    split; [reflexivity |]. split.
    + intros err ->. reflexivity.
    + intros lease ->. cbn. eexists _, _. repeat split.
Qed.

Lemma C6_renew_witness :
  exists resp s,
    fst (run all_ok (secretAccessKeysRenew durable_secret) empty_world) = (Some resp, None) /\
    resp_Secret resp = Some s /\ TTL s = 3600 /\ MaxTTL s = 7200 /\
    Renewable s = true /\ InternalData s = InternalData durable_secret.
Proof.
  refine (proj2 (proj2 (proj2 (C6_renew all_ok empty_world durable_secret) _))
            (Some {| Lease := 3600; LeaseMax := 7200 |}) eq_refl).
  discriminate.
Defined.

(** ** Revoke *)

(** What revoke does once [is_sts] did not stop it. *)
Lemma revoke_username (o : Oracle) (w : World) (secret : Secret) :
  InternalData secret !! "is_sts" = None \/
  InternalData secret !! "is_sts" = Some (VBool false) ->
  run o (secretAccessKeysRevoke secret) w =
  match InternalData secret !! "username" with
  | Some (VString username) =>
      let c := pathUserRollback "user" {[ "username" := VString username ]} in
      ((None, o _ c (trace w)), step w c (o _ c (trace w)))
  | _ => ((None, Some (ErrorString "secret is missing username internal data")), w)
  end.
Proof.
  intros Hsts. unfold secretAccessKeysRevoke.
  destruct Hsts as [-> | ->];
    destruct (InternalData secret !! "username") as [[| | username | |] |];
    try reflexivity;
    cbn -[singletonM];
    destruct (o _ (pathUserRollback "user" {[ "username" := VString username ]}) (trace w));
    reflexivity.
Qed.

Lemma revoke_malformed_is_sts (o : Oracle) (w : World) (secret : Secret) (v : value) :
  InternalData secret !! "is_sts" = Some v ->
  (forall b, v <> VBool b) ->
  run o (secretAccessKeysRevoke secret) w =
  ((None, Some (ErrorString "secret has is_sts but value could not be understood")), w).
Proof.
  intros Hsts Hv. unfold secretAccessKeysRevoke. rewrite Hsts.
  destruct v; try reflexivity. exfalso. eapply Hv. reflexivity.
Qed.

(** C5, as the code has it: on a Secret whose [is_sts] is [true], revoke
    returns nothing and calls no collaborator.  On a Secret whose
    [is_sts] is present but not a boolean, revoke returns its
    could-not-be-understood error and calls no collaborator.  On a Secret
    whose [is_sts] is absent or [false], revoke needs [username] to be
    present as a string: when it is absent or of another type the result
    is the missing-username error and no collaborator is called;
    otherwise the one call made is the user rollback, of kind [user] and
    with the username as its only datum, and its answer is what revoke
    returns. *)
Theorem C5_revoke (o : Oracle) (w : World) (secret : Secret) :
  (InternalData secret !! "is_sts" = Some (VBool true) ->
     run o (secretAccessKeysRevoke secret) w = ((None, None), w)) /\
  (forall v, InternalData secret !! "is_sts" = Some v -> (forall b, v <> VBool b) ->
     run o (secretAccessKeysRevoke secret) w =
     ((None, Some (ErrorString "secret has is_sts but value could not be understood")),
      w)) /\
  (InternalData secret !! "is_sts" = None \/
   InternalData secret !! "is_sts" = Some (VBool false) ->
     ((forall username, InternalData secret !! "username" <> Some (VString username)) ->
        run o (secretAccessKeysRevoke secret) w =
        ((None, Some (ErrorString "secret is missing username internal data")), w)) /\
     (forall username, InternalData secret !! "username" = Some (VString username) ->
        let c := pathUserRollback "user" {[ "username" := VString username ]} in
        run o (secretAccessKeysRevoke secret) w =
        ((None, o _ c (trace w)), apply_events w [Ev c (o _ c (trace w))]))).
Proof.
  split; [| split].
  - intros Hsts. unfold secretAccessKeysRevoke. rewrite Hsts. reflexivity.
  - intros v Hsts Hv. exact (revoke_malformed_is_sts o w secret v Hsts Hv).
  - intros Hsts. rewrite (revoke_username o w secret Hsts). split.
    + intros Hnone.
      destruct (InternalData secret !! "username") as [[| | username | |] |];
        try reflexivity.
      exfalso. eapply Hnone. reflexivity.
    + intros username ->. reflexivity.
Qed.

Lemma C5_revoke_witness :
  run all_ok (secretAccessKeysRevoke durable_secret) empty_world =
  ((None, None),
   apply_events empty_world
     [Ev (pathUserRollback "user" {[ "username" := VString "vault-IAM-alice" ]}) None]).
Proof.
  apply (proj2 (proj2 (proj2 (C5_revoke all_ok empty_world durable_secret))
                  (or_intror eq_refl)) "vault-IAM-alice" eq_refl).
Defined.

(** Counterexample to C5: a Secret whose [is_sts] is not [true] because
    it is malformed: its username is present, yet revoke returns the
    could-not-be-understood error and never reaches the rollback. *)
Lemma C5_malformed_is_sts_not_delegated :
  InternalData malformed_secret !! "is_sts" <> Some (VBool true) /\
  InternalData malformed_secret !! "username" = Some (VString "vault-IAM-alice") /\
  run all_ok (secretAccessKeysRevoke malformed_secret) empty_world =
    ((None, Some (ErrorString "secret has is_sts but value could not be understood")),
     empty_world).
Proof. repeat split. discriminate. Qed.

(** ** A malformed [is_sts] *)

(** On a malformed [is_sts], renew goes on to the lease configuration as
    if the entry were absent. *)
Lemma renew_malformed_is_sts (o : Oracle) (w : World) (secret : Secret) (v : value) :
  InternalData secret !! "is_sts" = Some v ->
  (forall b, v <> VBool b) ->
  run o (secretAccessKeysRenew secret) w =
  (renewed secret (o _ b_Lease (trace w)), step w b_Lease (o _ b_Lease (trace w))).
Proof.
  intros Hsts Hv. apply renew_not_sts. rewrite Hsts. intros [= ->].
  eapply Hv. reflexivity.
Qed.

(** C7, renew on a malformed [is_sts]: the Secret whose [is_sts] is the
    string [true] is renewed with the configured lease and no error,
    while revoke rejects the same Secret with its could-not-be-understood
    error. *)
Theorem C7_renew_accepts_malformed_is_sts :
  InternalData malformed_secret !! "is_sts" = Some (VString "true") /\
  fst (run all_ok (secretAccessKeysRenew malformed_secret) empty_world) =
    (Some {| resp_Secret := Some (set_MaxTTL 7200 (set_TTL 3600 malformed_secret));
             resp_Data := ∅ |}, None) /\
  fst (run all_ok (secretAccessKeysRevoke malformed_secret) empty_world) =
    (None, Some (ErrorString "secret has is_sts but value could not be understood")).
Proof. repeat split. Qed.

(** ** Session tokens *)

(** C8: with a serial number and an empty token code, once the STS
    client is available the next call is [GetSessionToken] with the
    serial number set and no token code; and when the provider answers
    with credentials, the handler returns them in a response that carries
    a Secret, with no error. *)
Theorem C8_session_token_without_code (X : Externals) (o : Oracle) (w : World)
    (serialNumber : string) (lifeTimeInSeconds : Z) :
  serialNumber <> "" ->
  o _ clientSTS (trace w) = None ->
  let input := {| gst_DurationSeconds := lifeTimeInSeconds;
                  gst_SerialNumber := Some serialNumber;
                  gst_TokenCode := None |} in
  let answer := o _ (GetSessionToken input) (trace w ++ [Ev clientSTS None]) in
  let res := run o (getSessionToken X serialNumber "" lifeTimeInSeconds) w in
  (exists rest, trace (snd res)
     = trace w ++ Ev clientSTS None :: Ev (GetSessionToken input) answer :: rest) /\
  (forall creds, answer = Ok creds ->
     exists resp s,
       fst res = (Some resp, None) /\
       resp_Secret resp = Some s /\
       resp_Data resp !! "access_key" = Some (VString (AccessKeyId creds)) /\
       resp_Data resp !! "secret_key" = Some (VString (SecretAccessKey creds)) /\
       resp_Data resp !! "session_token" = Some (VString (SessionToken creds))).
Proof.
  intros Hserial Hclient input answer res.
  unfold res, getSessionToken. cbn -[insert].
  rewrite Hclient. cbn -[insert].
  rewrite (bool_decide_eq_false_2 _ Hserial).
  rewrite (bool_decide_eq_true_2 ("" = "") eq_refl).
  fold input. fold answer.
  destruct answer as [creds | err] eqn:Hans; cbn -[insert]; split.
  - eexists. rewrite <- !app_assoc. cbn. reflexivity.
  - intros ? [= <-]. eexists _, _. repeat split.
  - eexists. rewrite <- !app_assoc. cbn. reflexivity.
  - intros ? [=].
Qed.

Lemma C8_session_token_witness :
  exists resp s,
    fst (run all_ok (getSessionToken exampleX "arn:aws:iam::1:mfa/alice" "" 3600)
           empty_world) = (Some resp, None) /\
    resp_Secret resp = Some s /\
    resp_Data resp !! "access_key" = Some (VString "ASIAEXAMPLE") /\
    resp_Data resp !! "secret_key" = Some (VString "secret") /\
    resp_Data resp !! "session_token" = Some (VString "token").
Proof.
  refine (proj2 (C8_session_token_without_code exampleX all_ok empty_world
                   "arn:aws:iam::1:mfa/alice" 3600 _ eq_refl) exampleCreds eq_refl).
  discriminate.
Defined.

(** ** Fail-closed policy check *)

(** C2, as the code has it: in [getFederationToken], when the group
    lookup succeeds and, after the group documents and ARNs are merged
    in, the document is empty and there is no ARN, the handler calls no
    token-issuing operation and surfaces an error; when moreover the STS
    client, the configuration and the username are obtained, that error
    is the must-specify-a-policy response. *)
Theorem C2_federation_token_fails_closed (X : Externals) (entropy : Entropy X)
    (o : Oracle) (w : World)
    (displayName policyName policy : string) (policyARNs iamGroups : list string)
    (lifeTimeInSeconds : Z)
    (groupPolicies : option (list string)) (groupPolicyARNs : list string) :
  o _ (getGroupPolicies iamGroups) (trace w) = Ok (groupPolicies, groupPolicyARNs) ->
  merged_document X groupPolicies policy = Ok "" ->
  policyARNs ++ groupPolicyARNs = [] ->
  let res := run o (getFederationToken X entropy displayName policyName policy policyARNs
                      iamGroups lifeTimeInSeconds) w in
  let tr1 := trace w ++
             [Ev (getGroupPolicies iamGroups) (Ok (groupPolicies, groupPolicyARNs))] in
  let tr2 := tr1 ++ [Ev clientSTS None] in
  (exists evs, snd res = apply_events w evs /\
               Forall (fun e => token_issuing e = false) evs) /\
  surfaced_error (fst res) /\
  (forall config username,
     o _ clientSTS tr1 = None ->
     config_of X (o _ (storageGet storageKey) tr2) = Ok config ->
     genUsername X entropy displayName policyName "sts" (template_of X config) = Ok username ->
     fst res = (Some (ErrorResponse insufficient_policy), None)).
Proof.
  intros Hgroups Hmerged Harns res tr1 tr2.
  apply app_eq_nil in Harns as [-> ->].
  destruct res as [r w'] eqn:Hrun. unfold res in Hrun. clear res.
  unfold getFederationToken in Hrun. cbn -[insert genUsername] in Hrun.
  rewrite Hgroups in Hrun.
  assert (match groupPolicies with
          | Some gp => or_return (combinePolicyDocuments X (gp ++ [policy]))
                         (fun err => (Some (ErrorResponse (Error err)), None))
          | None => mret policy
          end = mret "") as Hm.
  { unfold merged_document in Hmerged.
    destruct groupPolicies; [rewrite Hmerged | injection Hmerged as ->]; reflexivity. }
  cbn -[insert genUsername] in Hrun. rewrite Hm in Hrun. clear Hm.
  subst tr1 tr2.
  exec Hrun.
  all: try (exfalso; vm_compute in Heqb; discriminate).
  all: (split; [eexists; split; [reify_world; reflexivity | repeat constructor] |]).
  all: (split; [first [left; eexists; reflexivity | right; eexists; reflexivity] |]).
  all: intros config username Hc Hcfg Hgen; try reflexivity; exfalso.
  all: unfold config_of, template_of in *; cbn in *.
  all: repeat match goal with
       | H : ?f _ (storageGet _) _ = _ |- _ => rewrite H in Hcfg; clear H
       end; cbn in Hcfg; try congruence.
  all: try match goal with
       | H : DecodeJSON _ _ = Ok _, H' : DecodeJSON _ _ = Ok _ |- _ =>
           rewrite H in H'; injection H' as <-
       end.
  all: try (injection Hcfg as <-).
  all: cbn in *;
       repeat match goal with H : bool_decide _ = _ |- _ => rewrite H in Hgen end;
       congruence.
Qed.

Lemma C2_federation_token_witness :
  fst (run all_ok (getFederationToken exampleX "" "alice" "readonly" "" [] [] 3600)
         empty_world)
  = (Some (ErrorResponse insufficient_policy), None).
Proof.
  refine (proj2 (proj2 (C2_federation_token_fails_closed exampleX "" all_ok empty_world
                          "alice" "readonly" "" [] [] 3600 None []
                          eq_refl eq_refl eq_refl))
            {| UsernameTemplate := "" |} "vault-STS-" eq_refl eq_refl eq_refl).
Defined.

(** Counterexample to C2, for the assumed-role strategy: with no policy
    document, no policy ARN and no group policy, [assumeRole] calls
    [AssumeRole] with neither attached and returns the Secret. *)
Lemma C2_assume_role_issues_without_policy :
  let res := run all_ok (assumeRole exampleX "" "alice" "deploy" "arn:aws:iam::1:role/deploy"
                           "" [] [] 3600 "") empty_world in
  (exists before answer now,
     trace (snd res) =
     before ++ [Ev (AssumeRole {| ar_RoleSessionName := "vault-IAM-alice";
                                  ar_RoleArn := "arn:aws:iam::1:role/deploy";
                                  ar_DurationSeconds := 3600;
                                  ar_Policy := None;
                                  ar_PolicyArns := [] |}) (Ok answer);
                Ev timeNow now]) /\
  (exists s, returns_secret (fst res) s) /\
  ~ surfaced_error (fst res).
Proof.
  cbv zeta. split; [| split].
  - eexists [_; _; _], _, _. vm_compute. reflexivity.
  - eexists _, _. split; vm_compute; reflexivity.
  - intros [[err Herr] | [text Htext]];
      [vm_compute in Herr | vm_compute in Htext]; discriminate.
Qed.

(** ** Rules of the program logic *)

Lemma wp_bind {A B} (o : Oracle) (m : Fn A) (f : A -> Fn B) (w : World)
    (Q : Returned + B -> World -> Prop) :
  wp o m w (fun x w' =>
    match x with inl r => Q (inl r) w' | inr a => wp o (f a) w' Q end) ->
  wp o (m ≫= f) w Q.
Proof.
  unfold wp. rewrite run_fn_bind. destruct (fst (run o m w)); auto.
Qed.

Lemma wp_call {T} (o : Oracle) (c : Call T) (w : World)
    (Q : Returned + T -> World -> Prop) :
  Q (inr (o _ c (trace w))) (step w c (o _ c (trace w))) -> wp o (call c) w Q.
Proof. auto. Qed.

Lemma wp_ret {A} (o : Oracle) (a : A) (w : World) (Q : Returned + A -> World -> Prop) :
  Q (inr a) w -> wp o (mret a) w Q.
Proof. auto. Qed.

Lemma wp_return {A} (o : Oracle) (r : Returned) (w : World)
    (Q : Returned + A -> World -> Prop) :
  Q (inl r) w -> wp o (return_ r) w Q.
Proof. auto. Qed.

Lemma wp_mono {A} (o : Oracle) (m : Fn A) (w : World)
    (Q Q' : Returned + A -> World -> Prop) :
  wp o m w Q -> (forall x w', Q x w' -> Q' x w') -> wp o m w Q'.
Proof. unfold wp. auto. Qed.

Lemma wp_readConfig (X : Externals) (o : Oracle) (w : World)
    (Q : Returned + result rootConfig -> World -> Prop) :
  (let r := o _ (storageGet storageKey) (trace w) in
   Q (inr (config_of X r)) (step w (storageGet storageKey) r)) ->
  wp o (lift (readConfig X)) w Q.
Proof.
  unfold wp, lift. rewrite run_prog_bind, run_readConfig. auto.
Qed.

(** A loop keeps an invariant until its body returns. *)
Lemma wp_for_range {A} (o : Oracle) (xs : list A) (body : A -> Fn unit)
    (I : World -> Prop) (Q : Returned + unit -> World -> Prop) (w : World) :
  I w ->
  (forall a w1, I w1 ->
     wp o (body a) w1 (fun x w2 =>
       match x with inl r => Q (inl r) w2 | inr _ => I w2 end)) ->
  (forall w2, I w2 -> Q (inr tt) w2) ->
  wp o (for_range xs body) w Q.
Proof.
  intros Hw Hbody Hdone. revert w Hw.
  induction xs as [| x rest IH]; intros w Hw; cbn [for_range].
  - apply wp_ret. auto.
  - apply wp_bind. specialize (Hbody x w Hw). unfold wp in *.
    destruct (fst (run o (body x) w)) as [r | []]; auto.
Qed.

(** ** Durable-user issuance: every outcome *)

Lemma provisioning_call (X : Externals) (entropy : Entropy X) (o : Oracle) (w : World)
    (displayName policyName : string) (role : awsRoleEntry)
    (r : result (option string)) (config : rootConfig) (u id : string)
    (c : Call (option error)) (w1 : World) :
  config_of X r = Ok config ->
  genUsername X entropy displayName policyName "iam_user" (template_of X config) = Ok u ->
  provisioning_user (Ev c None) = Some u ->
  (forall t, answered_error (Ev c t) = t) ->
  provisioning role w r u id w1 ->
  wp o (err ← call c;
        check err (fun err =>
          (Some (ErrorResponse (step_message (Ev c None) +:+ Error err)),
           CheckAWSError X err)))
    w1 (fun x w2 => match x with
                    | inl ret => create_post X entropy displayName policyName role w (inl ret) w2
                    | inr _ => provisioning role w r u id w2
                    end).
Proof.
  intros Hconfig Hname Huser Hanswered (steps & -> & Hsteps).
  apply wp_bind, wp_call. cbv beta iota.
  rewrite trace_apply_events.
  destruct (o _ c _) as [err |] eqn:Hanswer; cbn [check].
  - apply wp_return. eexists. split; [apply apply_events_step |].
    apply (out_step X entropy displayName policyName role r config u id steps
             (Ev c (Some err)) err Hconfig Hname Hsteps); [exact Huser | apply Hanswered].
  - apply wp_ret. exists (steps ++ [Ev c None]). split.
    + rewrite apply_events_step, app_assoc. reflexivity.
    + apply Forall_app. split; [assumption |]. constructor; [| constructor].
      split; [exact Huser | apply Hanswered].
Qed.

Lemma create_outcome (X : Externals) (entropy : Entropy X) (order : MapOrder)
    (o : Oracle) (w : World)
    (displayName policyName : string) (role : awsRoleEntry) :
  exists evs,
    snd (run o (secretAccessKeysCreate X entropy order displayName policyName role) w)
      = apply_events w evs /\
    CreateOutcome X entropy displayName policyName role
      (fst (run o (secretAccessKeysCreate X entropy order displayName policyName role) w)) evs.
Proof.
  unfold secretAccessKeysCreate. rewrite run_func.
  match goal with
  | |- context [run o ?b w] =>
      change (wp o b w (create_post X entropy displayName policyName role w))
  end.
  apply wp_bind, wp_call. cbv beta iota.
  destruct (o _ clientIAM (trace w)) as [err |] eqn:E1; cbn [check].
  { apply wp_bind, wp_return. eexists. split; [reify_world; reflexivity | constructor]. }
  apply wp_bind, wp_ret. apply wp_bind, wp_readConfig. cbv zeta beta iota.
  set (r := o _ (storageGet storageKey) _).
  destruct (config_of X r) as [config | err] eqn:Hconfig; cbn [or_return].
  2:{ apply wp_bind, wp_return. eexists. split; [reify_world; reflexivity |].
      apply out_config. assumption. }
  apply wp_bind, wp_ret. fold (template_of X config).
  destruct (genUsername X entropy displayName policyName "iam_user" (template_of X config))
    as [u | err] eqn:Hname; cbn [or_return].
  2:{ apply wp_bind, wp_return. eexists. split; [reify_world; reflexivity |].
      eapply out_username; eassumption. }
  apply wp_bind, wp_ret. apply wp_bind, wp_call. cbv beta iota.
  match goal with
  | |- context [or_return ?a _] => destruct a as [id | err] eqn:E2
  end; cbn [or_return].
  2:{ apply wp_bind, wp_return. eexists. split; [reify_world; reflexivity |].
      eapply out_begin; eassumption. }
  apply wp_bind, wp_ret. fold (create_request u role).
  apply wp_bind, wp_call. cbv beta iota.
  match goal with
  | |- context [match ?a with Some _ => _ | None => _ end ≫= _] =>
      destruct a as [err |] eqn:E3
  end.
  { apply wp_bind, wp_bind, wp_call. cbv beta iota.
    match goal with
    | |- context [match ?a with Some _ => _ | None => _ end] =>
        destruct a as [walErr |] eqn:E4
    end; apply wp_return; (eexists; split; [reify_world; reflexivity |]).
    - apply (out_create X entropy displayName policyName role r config u id err (Some walErr)
               Hconfig Hname).
    - apply (out_create X entropy displayName policyName role r config u id err None
               Hconfig Hname). }
  apply wp_bind, wp_ret.
  assert (provisioning role w r u id
            (step (step (step (step w clientIAM None) (storageGet storageKey) r)
                     (PutWAL "user" {| wal_UserName := u |}) (Ok id))
               (CreateUser (create_request u role)) None)) as Hprov.
  { exists []. split; [rewrite app_nil_r; reflexivity | constructor]. }
  revert Hprov. generalize (step (step (step (step w clientIAM None) (storageGet storageKey) r)
                     (PutWAL "user" {| wal_UserName := u |}) (Ok id))
               (CreateUser (create_request u role)) None). clear E1 E2 E3.
  intros w1 Hprov.
  apply wp_bind.
  apply (wp_for_range o _ _ (provisioning role w r u id)); [exact Hprov | |].
  { intros arn w2 Hw2.
    exact (provisioning_call X entropy o w displayName policyName role r config u id
             (AttachUserPolicy u arn) w2 Hconfig Hname eq_refl (fun _ => eq_refl) Hw2). }
  clear w1 Hprov. intros w1 Hprov.
  apply wp_bind.
  apply (wp_mono o _ w1 (fun x w2 =>
           match x with
           | inl ret => create_post X entropy displayName policyName role w (inl ret) w2
           | inr _ => provisioning role w r u id w2
           end)).
  { destruct (bool_decide (PolicyDocument role = "")).
    - apply wp_ret. exact Hprov.
    - exact (provisioning_call X entropy o w displayName policyName role r config u id
               (PutUserPolicy u policyName (PolicyDocument role)) w1
               Hconfig Hname eq_refl (fun _ => eq_refl) Hprov). }
  clear w1 Hprov. intros [ret | []] w1 Hprov; [exact Hprov |].
  apply wp_bind.
  apply (wp_for_range o _ _ (provisioning role w r u id)); [exact Hprov | |].
  { intros group w2 Hw2.
    exact (provisioning_call X entropy o w displayName policyName role r config u id
             (AddUserToGroup u group) w2 Hconfig Hname eq_refl (fun _ => eq_refl) Hw2). }
  clear w1 Hprov. intros w1 Hprov.
  apply wp_bind.
  apply (wp_mono o _ w1 (fun x w2 =>
           match x with
           | inl ret => create_post X entropy displayName policyName role w (inl ret) w2
           | inr _ => provisioning role w r u id w2
           end)).
  { destruct (0 <? length (range_map order (IAMTags role)))%nat.
    - exact (provisioning_call X entropy o w displayName policyName role r config u id
               (TagUser (range_map order (IAMTags role)) u) w1
               Hconfig Hname eq_refl (fun _ => eq_refl) Hprov).
    - apply wp_ret. exact Hprov. }
  clear w1 Hprov. intros [ret | []] w1 Hprov; [exact Hprov |].
  destruct Hprov as (steps & -> & Hsteps).
  apply wp_bind, wp_call. cbv beta iota. rewrite apply_events_step.
  match goal with
  | |- context [or_return ?a _] => destruct a as [keyResp | err] eqn:E5
  end; cbn [or_return].
  2:{ apply wp_bind, wp_return. eexists. split; [reflexivity |].
      exact (out_step X entropy displayName policyName role r config u id steps
               (Ev (CreateAccessKey u) (Fail err)) err Hconfig Hname Hsteps
               eq_refl eq_refl). }
  apply wp_bind, wp_ret.
  assert (Forall (provisioned u) (steps ++ [Ev (CreateAccessKey u) (Ok keyResp)]))
    as Hsteps'.
  { apply Forall_app. split; [assumption |]. repeat constructor. }
  rewrite <- app_assoc. clear E5.
  apply wp_bind, wp_call. cbv beta iota. rewrite apply_events_step.
  match goal with
  | |- context [check ?a _] => destruct a as [err |] eqn:E6
  end; cbn [check].
  { apply wp_bind, wp_return. eexists. split; [reflexivity |].
    exact (out_commit X entropy displayName policyName role r config u id _ err
             Hconfig Hname Hsteps'). }
  apply wp_bind, wp_ret. apply wp_bind, wp_call. cbv beta iota.
  rewrite apply_events_step. apply wp_return.
  eexists. split; [rewrite <- app_assoc; reflexivity |].
  exact (out_success X entropy displayName policyName role r config u id _ _ _
           Hconfig Hname Hsteps').
Qed.

(** The scenario of a role with one managed policy: the username is
    rendered from the template, the ledger entry is written and then
    deleted, and the Secret carries the configured lease. *)
Example create_success_example :
  let res := run all_ok (secretAccessKeysCreate exampleX "" stored_order
        "alice" "readonly" exampleRole)
               empty_world in
  trace (snd res) =
    [Ev clientIAM None; Ev (storageGet storageKey) (Ok None);
     Ev (PutWAL "user" {| wal_UserName := "vault-IAM-alice" |}) (Ok "wal-1");
     Ev (CreateUser {| cu_UserName := "vault-IAM-alice"; cu_Path := "/";
                       cu_PermissionsBoundary := None |}) None;
     Ev (AttachUserPolicy "vault-IAM-alice" "arn:aws:iam::aws:policy/ReadOnlyAccess") None;
     Ev (CreateAccessKey "vault-IAM-alice")
        (Ok {| ak_AccessKeyId := "AKIAEXAMPLE"; ak_SecretAccessKey := "secret" |});
     Ev (DeleteWAL "wal-1") None;
     Ev b_Lease (Ok (Some {| Lease := 3600; LeaseMax := 7200 |}))] /\
  wal (snd res) = ∅ /\
  returns_secret (fst res)
    (issued_secret exampleX "vault-IAM-alice" exampleRole
       {| Lease := 3600; LeaseMax := 7200 |}).
Proof.
  cbv zeta. split; [reflexivity |]. split; [reflexivity |].
  eexists. split; reflexivity.
Qed.

(** When attaching the policy fails, the error is the response and the
    ledger entry stays in the log for the rollback to find. *)
Example create_attach_failure_example :
  let res := run attach_fails
               (secretAccessKeysCreate exampleX "" stored_order "alice" "readonly" exampleRole)
               empty_world in
  fst res = (Some (ErrorResponse "Error attaching user policy: AccessDenied"), None) /\
  wal (snd res) !! "wal-1" = Some ("user", {| wal_UserName := "vault-IAM-alice" |}) /\
  Forall (fun e => wal_delete e = None) (trace (snd res)).
Proof.
  cbv zeta. split; [reflexivity |]. split; [reflexivity |]. repeat constructor.
Qed.

(** ** Facts about observations and lists *)

Lemma provisioning_is_mutating (e : Event) (u : string) :
  provisioning_user e = Some u -> mutating_user e = Some u.
Proof. destruct e as [T c t]. destruct c; cbn; congruence. Qed.

Lemma provisioning_not_ledger (e : Event) (u : string) :
  provisioning_user e = Some u ->
  wal_begun e = None /\ wal_delete e = None /\ create_user_failed e = None /\
  forall m, wal_effect (ev_call e) (ev_ret e) m = m.
Proof. destruct e as [T c t]. destruct c; cbn; intros; try discriminate; auto. Qed.

Lemma wal_apply_events_inert (w : World) (evs : list Event) :
  Forall (fun e => forall m, wal_effect (ev_call e) (ev_ret e) m = m) evs ->
  wal (apply_events w evs) = wal w.
Proof.
  intros H. revert w. induction H as [| e evs He _ IH]; intros w; [reflexivity |].
  cbn. unfold apply_events in IH. rewrite IH. cbn. apply He.
Qed.

Lemma provisioned_inert (u : string) (steps : list Event) :
  Forall (provisioned u) steps ->
  Forall (fun e => forall m, wal_effect (ev_call e) (ev_ret e) m = m) steps.
Proof.
  intros H. eapply Forall_impl; [exact H |].
  intros e [He _]. apply (provisioning_not_ledger e u He).
Qed.

(** Splitting a list at an element that its first part cannot hold. *)
Lemma split_past {A} (P : A -> Prop) (l1 l2 pre post : list A) (e : A) :
  l1 ++ l2 = pre ++ e :: post ->
  Forall (fun x => ~ P x) l1 -> P e ->
  exists pre2, pre = l1 ++ pre2 /\ l2 = pre2 ++ e :: post.
Proof.
  revert pre. induction l1 as [| x l1 IH]; intros pre Heq Hl1 He.
  - exists pre. auto.
  - inversion Hl1 as [| ? ? Hx Hrest]; subst. destruct pre as [| y pre].
    + cbn in Heq. injection Heq as -> _. contradiction.
    + cbn in Heq. injection Heq as -> Heq.
      destruct (IH pre Heq Hrest He) as (pre2 & -> & ->). exists pre2. auto.
Qed.

Lemma split_last {A} (pre post : list A) (e x : A) :
  [x] = pre ++ e :: post -> pre = [] /\ post = [] /\ e = x.
Proof.
  destruct pre as [| y pre]; cbn; intros H.
  - injection H as -> ->. auto.
  - injection H as _ H. destruct pre; discriminate.
Qed.

(** ** The write-ahead log brackets the provisioning *)

Section Ledger.
Context (X : Externals) (entropy : Entropy X).
Context (displayName policyName : string) (role : awsRoleEntry).
Context (w : World) (res : Returned) (evs : list Event).
Context (Hout : CreateOutcome X entropy displayName policyName role res evs).

(** The ledger is written before the first mutating call. *)
Lemma ledger_first (pre post : list Event) (e : Event) (u : string) :
  evs = pre ++ e :: post -> mutating_user e = Some u ->
  exists p id, In p pre /\ wal_begun p = Some ("user", {| wal_UserName := u |}, id).
Proof.
  intros Hsplit Hmut.
  assert (forall r u0 id rest,
            evs = begun r u0 id ++ rest ->
            Forall (fun x => mutating_user x = None \/ mutating_user x = Some u0) rest ->
            exists p id, In p pre /\
                         wal_begun p = Some ("user", {| wal_UserName := u |}, id)) as Hgen.
  { intros r u0 id rest Hevs Hrest. rewrite Hevs in Hsplit.
    destruct (split_past (fun x => mutating_user x <> None) _ _ _ _ _ Hsplit)
      as (pre2 & -> & Hrest2).
    - repeat constructor; cbn; congruence.
    - congruence.
    - rewrite Hrest2 in Hrest. apply Forall_app in Hrest as [_ Hrest].
      inversion Hrest as [| ? ? He _]; subst.
      destruct He as [He | He]; [congruence |].
      assert (u0 = u) as -> by congruence.
      exists (Ev (PutWAL "user" {| wal_UserName := u |}) (Ok id)), id.
      split; [| reflexivity].
      apply in_or_app. left. unfold begun. cbn. auto. }
  assert (forall u0 steps, Forall (provisioned u0) steps ->
            Forall (fun x => mutating_user x = None \/ mutating_user x = Some u0) steps)
    as Hsteps.
  { intros u0 steps H. eapply Forall_impl; [exact H |].
    intros x [Hx _]. right. apply provisioning_is_mutating. exact Hx. }
  destruct Hout.
  - exfalso. apply split_last in Hsplit as (_ & _ & ->). discriminate.
  - exfalso. destruct pre as [| ? [| ? [| ? ?]]]; cbn in Hsplit; try discriminate;
      injection Hsplit; intros; subst; discriminate.
  - exfalso. destruct pre as [| ? [| ? [| ? ?]]]; cbn in Hsplit; try discriminate;
      injection Hsplit; intros; subst; discriminate.
  - exfalso. destruct pre as [| ? [| ? [| ? [| ? ?]]]]; cbn in Hsplit; try discriminate;
      injection Hsplit; intros; subst; discriminate.
  - eapply Hgen; [reflexivity |]. forall_list.
  - unfold created in *. eapply Hgen.
    + rewrite <- !app_assoc. reflexivity.
    + apply Forall_app. split; [forall_list |].
      apply Forall_app. split; [auto |]. forall_list.
      right. apply provisioning_is_mutating. assumption.
  - unfold created in *. eapply Hgen.
    + rewrite <- !app_assoc. reflexivity.
    + apply Forall_app. split; [forall_list |].
      apply Forall_app. split; [auto |]. forall_list.
  - unfold created in *. eapply Hgen.
    + rewrite <- !app_assoc. reflexivity.
    + apply Forall_app. split; [forall_list |].
      apply Forall_app. split; [auto |]. forall_list.
Qed.

(** No call other than a failed [CreateUser] looks like one. *)
Lemma in_split_elem {A} (pre post : list A) (e : A) (l : list A) :
  l = pre ++ e :: post -> In e l.
Proof. intros ->. apply in_or_app. right. left. reflexivity. Qed.

Lemma creation_failure (pre post : list Event) (e : Event)
    (input : CreateUserInput) (err : error) :
  evs = pre ++ e :: post -> create_user_failed e = Some (input, err) ->
  exists pre' id d,
    pre = pre' ++ [Ev (PutWAL "user" {| wal_UserName := cu_UserName input |}) (Ok id)] /\
    post = [Ev (DeleteWAL id) d] /\
    res = match d with
          | Some walErr =>
              (None, Some (Wrap (Errorf "failed to delete WAL entry: " walErr)
                                (Errorf "error creating IAM user: " err)))
          | None =>
              (Some (ErrorResponse ("Error creating IAM user: " +:+ Error err)),
               CheckAWSError X err)
          end /\
    (d = None -> wal (apply_events w evs) !! id = None).
Proof.
  intros Hsplit Hfailed.
  assert (Forall (fun x => create_user_failed x = None) evs -> False) as Hnone.
  { intros Hall. apply in_split_elem in Hsplit.
    rewrite List.Forall_forall in Hall. specialize (Hall e Hsplit). congruence. }
  assert (forall u0 steps, Forall (provisioned u0) steps ->
            Forall (fun x => create_user_failed x = None) steps) as Hsteps.
  { intros u0 steps H. eapply Forall_impl; [exact H |].
    intros x [Hx _]. apply (provisioning_not_ledger x u0 Hx). }
  destruct Hout; unfold created in *.
  5:{ destruct (split_past (fun x => create_user_failed x <> None) _ _ _ _ _ Hsplit)
        as (pre2 & -> & Hrest); [forall_list | congruence |].
      destruct pre2 as [| x [| y pre2]]; cbn in Hrest.
      - injection Hrest as <- <-. cbn in Hfailed. injection Hfailed as <- <-.
        exists [Ev clientIAM None; Ev (storageGet storageKey) r], id, d.
        split; [reflexivity |]. split; [reflexivity |]. split; [reflexivity |].
        intros ->. cbn. apply lookup_delete_eq.
      - injection Hrest as _ <- _. discriminate.
      - injection Hrest as _ _ Hrest. destruct pre2; discriminate. }
  all: exfalso; apply Hnone; repeat (apply Forall_app; split); forall_list; eauto.
  all: apply (provisioning_not_ledger _ u); assumption.
Qed.

(** A provisioning call that fails is the last call; its error is
    surfaced and the ledger entry stays. *)
Lemma provisioning_failure (pre post : list Event) (e : Event) (u : string) (err : error) :
  evs = pre ++ e :: post ->
  provisioning_user e = Some u -> answered_error e = Some err ->
  post = [] /\
  res = (Some (ErrorResponse (step_message e +:+ Error err)), CheckAWSError X err) /\
  Forall (fun x => wal_delete x = None) evs /\
  exists p id,
    In p pre /\ wal_begun p = Some ("user", {| wal_UserName := u |}, id) /\
    wal (apply_events w evs) !! id = Some ("user", {| wal_UserName := u |}).
Proof.
  intros Hsplit Huser Herr.
  pose (P := fun x : Event => provisioning_user x <> None /\ answered_error x <> None).
  assert (P e) as HP by (split; congruence).
  assert (Forall (fun x => ~ P x) evs -> False) as Hnone.
  { intros Hall. apply in_split_elem in Hsplit.
    rewrite List.Forall_forall in Hall. exact (Hall e Hsplit HP). }
  assert (forall u0 steps, Forall (provisioned u0) steps ->
            Forall (fun x => ~ P x) steps) as Hsteps.
  { intros u0 steps H. eapply Forall_impl; [exact H |].
    intros x [_ Hx] [_ HPx]. congruence. }
  assert (forall l, Forall (fun x : Event => provisioning_user x = None) l ->
            Forall (fun x => ~ P x) l) as Hother.
  { intros l H. eapply Forall_impl; [exact H |]. intros x Hx [HPx _]. congruence. }
  destruct Hout; unfold created in *.
  6:{ destruct (split_past P _ _ _ _ _ Hsplit) as (pre2 & -> & Hrest).
      - repeat (apply Forall_app; split); eauto.
        apply Hother. forall_list.
      - exact HP.
      - apply split_last in Hrest as (-> & -> & ->).
        assert (u0 = u) as -> by congruence.
        assert (err0 = err) as -> by congruence.
        split; [reflexivity |]. split; [reflexivity |]. split.
        + repeat (apply Forall_app; split); forall_list.
          * eapply Forall_impl; [eassumption |].
            intros x [Hx _]. apply (provisioning_not_ledger x u Hx).
          * apply (provisioning_not_ledger e0 u Huser).
        + exists (Ev (PutWAL "user" {| wal_UserName := u |}) (Ok id)), id.
          split; [| split; [reflexivity |]].
          * rewrite app_nil_r. apply in_or_app. left. apply in_or_app. left.
            cbn. auto.
          * rewrite !apply_events_app.
            rewrite (wal_apply_events_inert _ [e0])
              by (forall_list; apply (provisioning_not_ledger e0 u Huser)).
            rewrite (wal_apply_events_inert _ steps)
              by (apply (provisioned_inert u); assumption).
            cbn. apply lookup_insert_eq. }
  all: exfalso; apply Hnone; repeat (apply Forall_app; split); eauto.
  all: apply Hother; forall_list.
Qed.

(** A Secret is returned only after the ledger entry was deleted. *)
Lemma secret_after_commit (s : Secret) :
  returns_secret res s ->
  exists pre p u id lease,
    evs = pre ++ [Ev (DeleteWAL id) None; Ev b_Lease lease] /\
    In p pre /\ wal_begun p = Some ("user", u, id) /\
    wal (apply_events w evs) !! id = None.
Proof.
  intros (resp & Hres & Hsecret).
  destruct Hout; try destruct d; try discriminate;
    try (injection Hres; intros; subst; discriminate).
  exists (created r u id role ++ steps),
      (Ev (PutWAL "user" {| wal_UserName := u |}) (Ok id)),
      {| wal_UserName := u |}, id, lease.
  split; [reflexivity |]. split; [| split; [reflexivity |]].
  - apply in_or_app. left. unfold created, begun. cbn. auto.
  - rewrite !apply_events_app. cbn.
    rewrite wal_apply_events_inert by (apply (provisioned_inert u); assumption).
    cbn. apply lookup_delete_eq.
Qed.

(** Every issuance either returns a Secret or surfaces an error. *)
Lemma secret_or_error :
  (exists s, returns_secret res s) \/ surfaced_error res.
Proof.
  destruct Hout; try (right; left; eexists; reflexivity);
    try (right; right; eexists; reflexivity).
  - destruct d; [right; left | right; right]; eexists; reflexivity.
  - left. eexists _, _. split; reflexivity.
Qed.

End Ledger.

(** C1, as the code has it.  Every durable-user issuance makes its calls
    in an order [evs] such that:
    - before any mutating IAM call for a principal, a successful
      [PutWAL] of kind [user] naming that principal has happened;
    - when [CreateUser] fails, the call right before it is that
      [PutWAL], the only call after it is the [DeleteWAL] of the same
      ledger id, and the result is the creation error as an error
      response if the deletion succeeds (the entry is then gone) and the
      deletion error wrapped with the creation error if it fails;
    - when a later provisioning call fails it is the last call, its
      error is the response, no [DeleteWAL] has been attempted and the
      ledger entry is still in the log;
    - a Secret is returned only when the last two calls are the
      successful [DeleteWAL] of the ledger id and the lease read, and
      the entry is then gone from the log;
    - the issuance returns a Secret or surfaces an error.
    So success never leaves the entry behind; an error may come with the
    entry deleted (failed creation) or without any entry written. *)
Theorem C1_ledger_brackets_provisioning (X : Externals) (entropy : Entropy X) (order : MapOrder)
    (o : Oracle) (w : World)
    (displayName policyName : string) (role : awsRoleEntry) :
  let res := run o (secretAccessKeysCreate X entropy order displayName policyName role) w in
  exists evs, snd res = apply_events w evs /\
    (forall pre e post u,
       evs = pre ++ e :: post -> mutating_user e = Some u ->
       exists p id,
         In p pre /\ wal_begun p = Some ("user", {| wal_UserName := u |}, id)) /\
    (forall pre e post input err,
       evs = pre ++ e :: post -> create_user_failed e = Some (input, err) ->
       exists pre' id d,
         pre = pre' ++
               [Ev (PutWAL "user" {| wal_UserName := cu_UserName input |}) (Ok id)] /\
         post = [Ev (DeleteWAL id) d] /\
         fst res =
           match d with
           | Some walErr =>
               (None, Some (Wrap (Errorf "failed to delete WAL entry: " walErr)
                                 (Errorf "error creating IAM user: " err)))
           | None =>
               (Some (ErrorResponse ("Error creating IAM user: " +:+ Error err)),
                CheckAWSError X err)
           end /\
         (d = None -> wal (snd res) !! id = None)) /\
    (forall pre e post u err,
       evs = pre ++ e :: post ->
       provisioning_user e = Some u -> answered_error e = Some err ->
       post = [] /\
       fst res = (Some (ErrorResponse (step_message e +:+ Error err)),
                  CheckAWSError X err) /\
       Forall (fun x => wal_delete x = None) evs /\
       exists p id,
         In p pre /\ wal_begun p = Some ("user", {| wal_UserName := u |}, id) /\
         wal (snd res) !! id = Some ("user", {| wal_UserName := u |})) /\
    (forall s,
       returns_secret (fst res) s ->
       exists pre p u id lease,
         evs = pre ++ [Ev (DeleteWAL id) None; Ev b_Lease lease] /\
         In p pre /\ wal_begun p = Some ("user", u, id) /\
         wal (snd res) !! id = None) /\
    ((exists s, returns_secret (fst res) s) \/ surfaced_error (fst res)).
Proof.
  intros res.
  destruct (create_outcome X entropy order o w displayName policyName role) as (evs & Hw & Hout).
  fold res in Hw, Hout. exists evs. split; [exact Hw |]. rewrite Hw.
  split; [| split; [| split; [| split]]].
  - intros pre e post u. apply (ledger_first X entropy displayName policyName role _ _ Hout).
  - intros pre e post input err.
    apply (creation_failure X entropy displayName policyName role w _ _ Hout).
  - intros pre e post u err.
    apply (provisioning_failure X entropy displayName policyName role w _ _ Hout).
  - intros s. apply (secret_after_commit X entropy displayName policyName role w _ _ Hout).
  - apply (secret_or_error X entropy displayName policyName role _ _ Hout).
Qed.

Lemma C1_ledger_witness :
  let res := run all_ok (secretAccessKeysCreate exampleX "" stored_order
        "alice" "readonly" exampleRole)
               empty_world in
  exists evs, snd res = apply_events empty_world evs /\
    exists pre p u id lease,
      evs = pre ++ [Ev (DeleteWAL id) None; Ev b_Lease lease] /\
      In p pre /\ wal_begun p = Some ("user", u, id) /\
      wal (snd res) !! id = None.
Proof.
  intros res.
  destruct (C1_ledger_brackets_provisioning exampleX "" stored_order all_ok empty_world
              "alice" "readonly" exampleRole) as (evs & Hw & _ & _ & _ & Hsecret & _).
  exists evs. split; [exact Hw |].
  apply (Hsecret (issued_secret exampleX "vault-IAM-alice" exampleRole
                    {| Lease := 3600; LeaseMax := 7200 |})).
  eexists. split; reflexivity.
Defined.

(** Counterexample to C1, when the provider refuses to create the
    principal: the issuance surfaces the creation error and the ledger
    entry is absent at the end, so both alternatives hold at once. *)
Lemma C1_error_with_entry_deleted :
  let res := run create_fails
               (secretAccessKeysCreate exampleX "" stored_order "alice" "readonly" exampleRole)
               empty_world in
  fst res = (Some (ErrorResponse "Error creating IAM user: EntityAlreadyExists"), None) /\
  surfaced_error (fst res) /\
  trace (snd res) =
    [Ev clientIAM None; Ev (storageGet storageKey) (Ok None);
     Ev (PutWAL "user" {| wal_UserName := "vault-IAM-alice" |}) (Ok "wal-1");
     Ev (CreateUser {| cu_UserName := "vault-IAM-alice"; cu_Path := "/";
                       cu_PermissionsBoundary := None |})
        (Some (ErrorString "EntityAlreadyExists"));
     Ev (DeleteWAL "wal-1") None] /\
  wal (snd res) !! "wal-1" = None.
Proof.
  cbv zeta. split; [reflexivity |]. split; [right; eexists; reflexivity |].
  split; reflexivity.
Qed.

(** ** Lease fields of issued Secrets *)

(** The Secret of a successful durable-user issuance, and its last call. *)
Lemma create_secret (X : Externals) (entropy : Entropy X) (displayName policyName : string)
    (role : awsRoleEntry) (res : Returned) (evs : list Event) (s : Secret) :
  CreateOutcome X entropy displayName policyName role res evs ->
  returns_secret res s ->
  exists pre u lease,
    evs = pre ++ [Ev b_Lease lease] /\
    s = issued_secret X u role (lease_or_zero lease).
Proof.
  intros Hout (resp & Hres & Hsecret).
  destruct Hout; try destruct d; try discriminate;
    try (injection Hres; intros; subst; discriminate).
  injection Hres as <-. cbn in Hsecret. injection Hsecret as <-.
  exists ((created r u id role ++ steps) ++ [Ev (DeleteWAL id) None]), u, lease.
  split; [exact (app_assoc _ [_] [_]) | reflexivity].
Qed.

(** An issuance whose last call is the lease read has succeeded. *)
Lemma create_reaches_lease (X : Externals) (entropy : Entropy X) (displayName policyName : string)
    (role : awsRoleEntry) (res : Returned) (evs pre : list Event) (e : Event)
    (lease : result (option configLease)) :
  CreateOutcome X entropy displayName policyName role res evs ->
  evs = pre ++ [e] -> lease_read e = Some lease ->
  exists u, returns_secret res (issued_secret X u role (lease_or_zero lease)).
Proof.
  intros Hout Hlast Hread.
  assert (forall l x, evs = l ++ [x] -> lease_read x = Some lease) as Hx.
  { intros l x Hl. rewrite Hl in Hlast. apply app_inj_tail in Hlast as [_ ->].
    exact Hread. }
  destruct Hout.
  - specialize (Hx [] _ eq_refl). discriminate.
  - specialize (Hx [_] _ eq_refl). discriminate.
  - specialize (Hx [_] _ eq_refl). discriminate.
  - specialize (Hx [_; _] _ eq_refl). discriminate.
  - specialize (Hx (begun r u id ++ [Ev (CreateUser (create_request u role)) (Some err)])
                  (Ev (DeleteWAL id) d) (app_assoc _ [_] [_])).
    discriminate.
  - specialize (Hx _ _ eq_refl). destruct e0 as [T c t]. destruct c; discriminate.
  - specialize (Hx _ _ eq_refl). discriminate.
  - specialize (Hx ((created r u id role ++ steps) ++ [Ev (DeleteWAL id) None])
                  (Ev b_Lease lease0) (app_assoc _ [_] [_])).
    injection Hx as ->. exists u. eexists. split; reflexivity.
Qed.

(** C10: when a durable-user issuance gets as far as reading the lease
    configuration and the read fails or finds no configuration, the
    issuance still returns its Secret with no error, with TTL 0 and
    max-TTL 0; whereas renew, on a Secret that is not STS, returns the
    error of a failed read and no response. *)
Theorem C10_lease_read_failure_swallowed (X : Externals) (entropy : Entropy X) (order : MapOrder)
    (o : Oracle) (w : World)
    (displayName policyName : string) (role : awsRoleEntry) :
  let res := run o (secretAccessKeysCreate X entropy order displayName policyName role) w in
  (forall pre e lease,
     trace (snd res) = trace w ++ pre ++ [e] ->
     lease_read e = Some lease ->
     lease = Ok None \/ (exists err, lease = Fail err) ->
     exists s, returns_secret (fst res) s /\ TTL s = 0 /\ MaxTTL s = 0 /\
               ~ surfaced_error (fst res)) /\
  (forall secret err,
     InternalData secret !! "is_sts" <> Some (VBool true) ->
     o _ b_Lease (trace w) = Fail err ->
     fst (run o (secretAccessKeysRenew secret) w) = (None, Some err)).
Proof.
  intros res. split.
  - intros pre e lease Htrace Hread Hlease.
    destruct (create_outcome X entropy order o w displayName policyName role) as (evs & Hw & Hout).
    fold res in Hw, Hout. rewrite Hw, trace_apply_events in Htrace.
    apply app_inv_head in Htrace.
    destruct (create_reaches_lease X entropy displayName policyName role _ _ _ _ _
                Hout Htrace Hread) as (u & Hsecret).
    eexists. split; [exact Hsecret |].
    assert (lease_or_zero lease = zero_lease) as ->.
    { destruct Hlease as [-> | [err ->]]; reflexivity. }
    split; [reflexivity |]. split; [reflexivity |].
    destruct Hsecret as (resp & Hres & Hs). rewrite Hres.
    intros [[err Herr] | [text Htext]]; cbn in *; [discriminate |].
    injection Htext as ->. discriminate.
  - intros secret err Hsts Hfail. rewrite (renew_not_sts o w secret Hsts).
    rewrite Hfail. reflexivity.
Qed.

Lemma C10_lease_read_failure_witness :
  exists s,
    returns_secret
      (fst (run lease_fails (secretAccessKeysCreate exampleX "" stored_order
            "alice" "readonly" exampleRole)
              empty_world)) s /\
    TTL s = 0 /\ MaxTTL s = 0 /\
    ~ surfaced_error
        (fst (run lease_fails
                (secretAccessKeysCreate exampleX "" stored_order "alice" "readonly" exampleRole)
                empty_world)).
Proof.
  refine (proj1 (C10_lease_read_failure_swallowed exampleX "" stored_order lease_fails empty_world
                   "alice" "readonly" exampleRole)
            [_; _; _; _; _; _; _] (Ev b_Lease _)
            (Fail (ErrorString "storage: connection refused")) _ _ _).
  - reflexivity.
  - reflexivity.
  - right. eexists. reflexivity.
Defined.

Lemma federation_secret (X : Externals) (entropy : Entropy X) (o : Oracle) (w : World)
    (displayName policyName policy : string) (policyARNs iamGroups : list string)
    (lifeTimeInSeconds : Z) (s : Secret) :
  let res := run o (getFederationToken X entropy displayName policyName policy policyARNs
                      iamGroups lifeTimeInSeconds) w in
  returns_secret (fst res) s ->
  InternalData s !! "is_sts" = Some (VBool true) /\
  Renewable s = false /\
  exists pre input creds now,
    snd res = apply_events w
                (pre ++ [Ev (GetFederationToken input) (Ok creds); Ev timeNow now]) /\
    TTL s = time_Sub X (Expiration creds) now.
Proof.
  intros res Hsecret. destruct res as [r w'] eqn:Hrun. unfold res in Hrun. clear res.
  unfold getFederationToken in Hrun. cbn [fst snd] in *.
  exec Hrun.
  all: try (no_secret Hsecret).
  all: destruct Hsecret as (resp & Hres & Hs); injection Hres as <-;
       cbn in Hs; injection Hs as <-.
  all: split; [reflexivity |]; split; [reflexivity |].
  all: eexists [_; _; _], _, _, _; split; [reify_world; reflexivity | reflexivity].
Qed.

Lemma session_secret (X : Externals) (o : Oracle) (w : World)
    (serialNumber mfaCode : string) (lifeTimeInSeconds : Z) (s : Secret) :
  let res := run o (getSessionToken X serialNumber mfaCode lifeTimeInSeconds) w in
  returns_secret (fst res) s ->
  InternalData s !! "is_sts" = Some (VBool true) /\
  Renewable s = false /\
  exists pre input creds now0 now,
    snd res = apply_events w
                (pre ++ [Ev (GetSessionToken input) (Ok creds);
                         Ev timeNow now0; Ev timeNow now]) /\
    TTL s = time_Sub X (Expiration creds) now.
Proof.
  intros res Hsecret. destruct res as [r w'] eqn:Hrun. unfold res in Hrun. clear res.
  unfold getSessionToken in Hrun. cbn [fst snd] in *.
  exec Hrun.
  all: try (no_secret Hsecret).
  all: destruct Hsecret as (resp & Hres & Hs); injection Hres as <-;
       cbn in Hs; injection Hs as <-.
  all: split; [reflexivity |]; split; [reflexivity |].
  all: eexists [_], _, _, _, _; split; [reify_world; reflexivity | reflexivity].
Qed.

Lemma assume_role_secret (X : Externals) (entropy : Entropy X) (o : Oracle) (w : World)
    (displayName roleName roleArn policy : string)
    (policyARNs iamGroups : list string) (lifeTimeInSeconds : Z)
    (roleSessionName : string) (s : Secret) :
  let res := run o (assumeRole X entropy displayName roleName roleArn policy policyARNs
                      iamGroups lifeTimeInSeconds roleSessionName) w in
  returns_secret (fst res) s ->
  InternalData s !! "is_sts" = Some (VBool true) /\
  Renewable s = false /\
  exists pre input answer now,
    snd res = apply_events w
                (pre ++ [Ev (AssumeRole input) (Ok answer); Ev timeNow now]) /\
    TTL s = time_Sub X (Expiration (aro_Credentials answer)) now.
Proof.
  intros res Hsecret. destruct res as [r w'] eqn:Hrun. unfold res in Hrun. clear res.
  unfold assumeRole in Hrun. cbn [fst snd] in *.
  exec Hrun.
  all: try (no_secret Hsecret).
  all: destruct Hsecret as (resp & Hres & Hs); injection Hres as <-;
       cbn in Hs; injection Hs as <-.
  all: split; [reflexivity |]; split; [reflexivity |].
  all: eexists [_; _; _], _, _, _; split; [reify_world; reflexivity | reflexivity].
Qed.

(** C3: a Secret returned by [getFederationToken], [getSessionToken] or
    [assumeRole] has [is_sts] true in its internal data, is not
    renewable, and its TTL is the expiration the provider reported minus
    the clock reading taken last, after the provider answered (the
    subtraction being [time.Time.Sub]); a Secret returned by
    [secretAccessKeysCreate] has [is_sts] false, and its TTL and max-TTL
    are those of the lease configuration read last (zero when the read
    failed or found none). *)
Theorem C3_secret_lease_fields (X : Externals) (entropy : Entropy X) (order : MapOrder)
    (o : Oracle) (w : World) (s : Secret) :
  (forall displayName policyName policy policyARNs iamGroups lifeTimeInSeconds,
     let res := run o (getFederationToken X entropy displayName policyName policy policyARNs
                         iamGroups lifeTimeInSeconds) w in
     returns_secret (fst res) s ->
     InternalData s !! "is_sts" = Some (VBool true) /\
     Renewable s = false /\
     exists pre input creds now,
       snd res = apply_events w
                   (pre ++ [Ev (GetFederationToken input) (Ok creds); Ev timeNow now]) /\
       TTL s = time_Sub X (Expiration creds) now) /\
  (forall serialNumber mfaCode lifeTimeInSeconds,
     let res := run o (getSessionToken X serialNumber mfaCode lifeTimeInSeconds) w in
     returns_secret (fst res) s ->
     InternalData s !! "is_sts" = Some (VBool true) /\
     Renewable s = false /\
     exists pre input creds now0 now,
       snd res = apply_events w
                   (pre ++ [Ev (GetSessionToken input) (Ok creds);
                            Ev timeNow now0; Ev timeNow now]) /\
       TTL s = time_Sub X (Expiration creds) now) /\
  (forall displayName roleName roleArn policy policyARNs iamGroups lifeTimeInSeconds
          roleSessionName,
     let res := run o (assumeRole X entropy displayName roleName roleArn policy policyARNs
                         iamGroups lifeTimeInSeconds roleSessionName) w in
     returns_secret (fst res) s ->
     InternalData s !! "is_sts" = Some (VBool true) /\
     Renewable s = false /\
     exists pre input answer now,
       snd res = apply_events w
                   (pre ++ [Ev (AssumeRole input) (Ok answer); Ev timeNow now]) /\
       TTL s = time_Sub X (Expiration (aro_Credentials answer)) now) /\
  (forall displayName policyName role,
     let res := run o (secretAccessKeysCreate X entropy order displayName policyName role) w in
     returns_secret (fst res) s ->
     InternalData s !! "is_sts" = Some (VBool false) /\
     exists pre lease,
       snd res = apply_events w (pre ++ [Ev b_Lease lease]) /\
       TTL s = Lease (lease_or_zero lease) /\
       MaxTTL s = LeaseMax (lease_or_zero lease)).
Proof.
  split; [| split; [| split]].
  - intros. apply federation_secret. assumption.
  - intros. apply session_secret. assumption.
  - intros. apply assume_role_secret. assumption.
  - intros displayName policyName role res Hsecret.
    destruct (create_outcome X entropy order o w displayName policyName role) as (evs & Hw & Hout).
    fold res in Hw, Hout.
    destruct (create_secret X entropy displayName policyName role _ _ s Hout Hsecret)
      as (pre & u & lease & -> & ->).
    split; [reflexivity |]. exists pre, lease. repeat split. exact Hw.
Qed.

Lemma C3_secret_lease_fields_witness :
  let res := run all_ok (getFederationToken exampleX "" "alice" "readonly" "{}" [] [] 3600)
               empty_world in
  exists s,
    returns_secret (fst res) s /\
    InternalData s !! "is_sts" = Some (VBool true) /\
    Renewable s = false /\
    exists pre input creds now,
      snd res = apply_events empty_world
                  (pre ++ [Ev (GetFederationToken input) (Ok creds); Ev timeNow now]) /\
      TTL s = time_Sub exampleX (Expiration creds) now.
Proof.
  intros res. eexists. split; [eexists; split; reflexivity |].
  apply (proj1 (C3_secret_lease_fields exampleX "" stored_order all_ok empty_world _)).
  eexists. split; reflexivity.
Defined.

(** * Further properties *)

(** ** Sanitized names and generated usernames *)

(** Sanitizing drops the bytes it skips and adds none. *)
Lemma normalize_from_length (s : string) (skip : nat) :
  (String.length (normalize_from skip s) + Nat.min skip (String.length s)
   <= String.length s)%nat.
Proof.
  revert skip. induction s as [| c rest IH]; intros skip; cbn [normalize_from String.length].
  - lia.
  - destruct skip as [| k].
    + destruct (allowed c); cbn [String.length].
      * specialize (IH 0%nat). lia.
      * specialize (IH (rune_width c rest - 1)%nat). lia.
    + specialize (IH k). lia.
Qed.

(** A name of class bytes only is left as it is. *)
Lemma normalize_from_clean (s : string) :
  Forall (fun c => allowed c = true) (list_ascii_of_string s) ->
  normalize_from 0 s = s.
Proof.
  induction s as [| c rest IH]; cbn [list_ascii_of_string normalize_from]; intros H.
  - reflexivity.
  - inversion H as [| ? ? Hc Hrest]; subst. rewrite Hc, (IH Hrest). reflexivity.
Qed.

(** On ASCII every rune is one byte wide. *)
Lemma normalize_from_ascii (s : string) :
  Forall (fun c => byte_in 0 127 c = true) (list_ascii_of_string s) ->
  String.length (normalize_from 0 s) = String.length s.
Proof.
  induction s as [| c rest IH]; cbn [list_ascii_of_string normalize_from]; intros H.
  - reflexivity.
  - inversion H as [| ? ? Hc Hrest]; subst.
    destruct (allowed c); cbn [String.length]; [rewrite (IH Hrest); reflexivity |].
    unfold rune_width. rewrite Hc. cbn. rewrite (IH Hrest). reflexivity.
Qed.

(** X1: [normalizeDisplayName] returns only bytes of the class
    [a-zA-Z0-9+=,.@_-]; its result is never longer than its argument, and
    has exactly the length of its argument when the argument is ASCII. *)
Theorem X1_normalize_only_class_bytes (displayName : string) :
  Forall (fun c => allowed c = true)
    (list_ascii_of_string (normalizeDisplayName displayName)) /\
  (String.length (normalizeDisplayName displayName) <= String.length displayName)%nat /\
  (Forall (fun c => byte_in 0 127 c = true) (list_ascii_of_string displayName) ->
   String.length (normalizeDisplayName displayName) = String.length displayName).
Proof.
  split; [apply normalize_from_allowed |]. split; [| apply normalize_from_ascii].
  pose proof (normalize_from_length displayName 0). unfold normalizeDisplayName. lia.
Qed.

(** X2: sanitizing is idempotent, and a name made of bytes of the class
    only is returned unchanged. *)
Theorem X2_normalize_idempotent (displayName : string) :
  normalizeDisplayName (normalizeDisplayName displayName)
  = normalizeDisplayName displayName /\
  (Forall (fun c => allowed c = true) (list_ascii_of_string displayName) ->
   normalizeDisplayName displayName = displayName).
Proof.
  split.
  - apply normalize_from_clean, normalize_from_allowed.
  - apply normalize_from_clean.
Qed.

(** The length checks of [genUsername] bound every name it returns. *)
Lemma genUsername_within_cap (X : Externals) (entropy : Entropy X)
    (displayName policyName userType usernameTemplate name : string) :
  genUsername X entropy displayName policyName userType usernameTemplate = Ok name ->
  (String.length name <= 64)%nat /\
  (userType = "sts" -> (String.length name <= 32)%nat).
Proof.
  unfold genUsername. intros H.
  destruct (bool_decide (userType = "iam_user") || bool_decide (userType = "assume_role"))
    eqn:Hiam.
  - destruct (NewTemplate X usernameTemplate) as [up |]; [| discriminate].
    destruct (Generate X up _) as [ret |]; [| discriminate].
    destruct (64 <? String.length ret)%nat eqn:Hlen; [discriminate |].
    injection H as <-. apply Nat.ltb_ge in Hlen. split; [exact Hlen |].
    intros ->. vm_compute in Hiam. discriminate.
  - destruct (bool_decide (userType = "sts")) eqn:Hsts.
    + destruct (NewTemplate X usernameTemplate) as [up |]; [| discriminate].
      destruct (Generate X up _) as [ret |]; [| discriminate].
      destruct (32 <? String.length ret)%nat eqn:Hlen; [discriminate |].
      injection H as <-. apply Nat.ltb_ge in Hlen. split; [lia | intros _; exact Hlen].
    + injection H as <-. cbn. split; [lia |]. intros ->. vm_compute in Hsts. discriminate.
Qed.

(** X3: whatever the template engine renders, a name that [genUsername]
    returns has at most 64 bytes, and at most 32 for the kind [sts]. *)
Theorem X3_username_within_cap (X : Externals) (entropy : Entropy X)
    (displayName policyName userType usernameTemplate name : string) :
  genUsername X entropy displayName policyName userType usernameTemplate = Ok name ->
  (String.length name <= 64)%nat /\
  (userType = "sts" -> (String.length name <= 32)%nat).
Proof. apply genUsername_within_cap. Qed.

Lemma X3_username_within_cap_witness :
  (String.length "vault-STS-" <= 64)%nat /\
  ("sts" = "sts" -> (String.length "vault-STS-" <= 32)%nat).
Proof.
  apply (X3_username_within_cap exampleX "" "alice" "readonly" "sts" "vault-" "vault-STS-").
  reflexivity.
Defined.

(** X4: for a recognized kind, a template that cannot be parsed makes
    [genUsername] fail with the parser's error wrapped under the
    unable-to-initialize message, and a rendering that fails, with the
    renderer's error wrapped under the failed-to-generate message. *)
Theorem X4_username_template_errors (X : Externals) (entropy : Entropy X)
    (displayName policyName userType usernameTemplate : string) (cap : nat) (err : error) :
  length_cap userType = Some cap ->
  (NewTemplate X usernameTemplate = Fail err ->
   genUsername X entropy displayName policyName userType usernameTemplate
   = Fail (Errorf "unable to initialize username template: " err)) /\
  (forall up,
     NewTemplate X usernameTemplate = Ok up ->
     Generate X up (metadata_for userType displayName policyName) entropy = Fail err ->
     genUsername X entropy displayName policyName userType usernameTemplate
     = Fail (Errorf "failed to generate username: " err)).
Proof.
  unfold length_cap, metadata_for, genUsername. intros Hcap.
  destruct (bool_decide (userType = "iam_user") || bool_decide (userType = "assume_role"))
    eqn:Hiam.
  - assert (bool_decide (userType = "sts") = false) as ->.
    { apply bool_decide_eq_false. apply orb_true_iff in Hiam as [H | H];
        apply bool_decide_eq_true in H; subst; discriminate. }
    split; [intros -> | intros up -> ->]; reflexivity.
  - destruct (bool_decide (userType = "sts")); [| discriminate].
    split; [intros -> | intros up -> ->]; reflexivity.
Qed.

Lemma X4_username_template_errors_witness :
  genUsername rejectingX tt "alice" "readonly" "iam_user" "{{"
  = Fail (Errorf "unable to initialize username template: "
            (ErrorString "template: parse error")).
Proof.
  apply (proj1 (X4_username_template_errors rejectingX tt "alice" "readonly" "iam_user" "{{"
                  64%nat (ErrorString "template: parse error") eq_refl)).
  reflexivity.
Defined.

(** X5: [genUsername] sanitizes the two names itself before it hands
    them to the template engine: whatever the engine draws during the
    rendering, names already sanitized lead to the same result as the
    names they come from; and for the kind [sts] the names do not reach
    the engine at all, so the result does not depend on them. *)
Theorem X5_username_sanitizing_is_stable (X : Externals) (entropy : Entropy X)
    (displayName policyName userType usernameTemplate : string) :
  genUsername X entropy (normalizeDisplayName displayName) (normalizeDisplayName policyName)
    userType usernameTemplate
  = genUsername X entropy displayName policyName userType usernameTemplate /\
  (forall displayName' policyName',
     genUsername X entropy displayName' policyName' "sts" usernameTemplate
     = genUsername X entropy displayName policyName "sts" usernameTemplate).
Proof.
  split.
  - unfold genUsername.
    assert (forall s, normalizeDisplayName (normalizeDisplayName s)
                      = normalizeDisplayName s) as Hidem
      by (intros s; apply normalize_from_clean, normalize_from_allowed).
    rewrite !Hidem. reflexivity.
  - intros. reflexivity.
Qed.

(** ** convertPolicyARNs: the index loop fills every slot *)

Lemma convertPolicyARNs_slots_from (done : list (option PolicyDescriptorType))
    (rest : list string) :
  fold_left (fun retval '(i, arn) => <[i := Some {| Arn := arn |}]> retval)
            (imap (fun i arn => (length done + i, arn)%nat) rest)
            (done ++ replicate (length rest) None)
  = done ++ (Some <$> convertPolicyARNs rest).
Proof.
  revert done. induction rest as [| arn rest IH]; intros done; [reflexivity |].
  cbn [imap fold_left length replicate].
  rewrite Nat.add_0_r.
  rewrite insert_app_r_alt by lia. rewrite Nat.sub_diag. cbn [insert list_insert].
  change (done ++ Some {| Arn := arn |} :: replicate (length rest) None)
    with (done ++ [Some {| Arn := arn |}] ++ replicate (length rest) None).
  rewrite app_assoc.
  rewrite (imap_ext _ (fun i a => (length (done ++ [Some {| Arn := arn |}]) + i, a)%nat)).
  - rewrite IH, <- app_assoc. reflexivity.
  - intros i x _. cbn. rewrite length_app. cbn. f_equal. lia.
Qed.

(** X6: the slice that [convertPolicyARNs] allocates with one nil slot
    per ARN and fills by index holds, when the loop ends, a descriptor in
    every slot: slot [i] carries the [i]-th ARN, so the result has the
    length of the input and the ARNs read back from it are the input. *)
Theorem X6_convertPolicyARNs_fills_every_slot (policyARNs : list string) :
  convertPolicyARNs_slots policyARNs = Some <$> convertPolicyARNs policyARNs /\
  length (convertPolicyARNs policyARNs) = length policyARNs /\
  (forall i arn, policyARNs !! i = Some arn ->
                 convertPolicyARNs policyARNs !! i = Some {| Arn := arn |}) /\
  Arn <$> convertPolicyARNs policyARNs = policyARNs.
Proof.
  split; [| split; [| split]].
  - exact (convertPolicyARNs_slots_from [] policyARNs).
  - apply length_map.
  - intros i arn Hi. unfold convertPolicyARNs.
    change (map ?f ?l) with (f <$> l). rewrite list_lookup_fmap, Hi. reflexivity.
  - unfold convertPolicyARNs. change (map ?f ?l) with (f <$> l).
    rewrite <- list_fmap_compose. apply list_fmap_id.
Qed.

(** ** Symbolic execution, one answer at a time *)

(** The value a stuck program waits for: the scrutinee at its head. *)
Ltac head_value x :=
  lazymatch x with
  | match ?y with _ => _ end => head_value y
  | _ => x
  end.

(** The scrutinee at the head of a stuck handler. *)
Ltac head_of p :=
  lazymatch p with
  | prog_bind ?m _ => head_of m
  | fn_bind _ ?m => head_of m
  | mbind _ ?m => head_of m
  | or_return ?r _ => head_value r
  | check ?r _ => head_value r
  | match ?x with _ => _ end => head_value x
  end.

(** Runs the handler in hypothesis [H], splitting only on what the run
    waits for. *)
Ltac exec_head H :=
  repeat (cbn -[insert genUsername] in H;
          lazymatch type of H with
          | run _ ?p _ = _ => let x := head_of p in destruct x eqn:?
          end);
  cbn -[insert genUsername] in H;
  try (injection H as <- <-); cbn -[insert genUsername].

(** ** Session tokens: every outcome *)

(** X7: [getSessionToken] ends in one of three ways, and in each the
    calls it made are exactly the ones listed.  The STS client cannot be
    built: its error is the response and nothing else is called.  The
    provider refuses the request built from the arguments: the result is
    the error response and the checked error.  The provider answers: the
    clock is then read twice; the response carries the access key, the
    secret key and the session token of the answer, no [security_token],
    and as [ttl] the whole seconds left at the first reading, while the
    TTL of the Secret is what is left at the second; the Secret records
    no username. *)
Theorem X7_session_token_outcomes (X : Externals) (o : Oracle) (w : World)
    (serialNumber mfaCode : string) (lifeTimeInSeconds : Z) :
  let input := session_request serialNumber mfaCode lifeTimeInSeconds in
  let res := run o (getSessionToken X serialNumber mfaCode lifeTimeInSeconds) w in
  (exists err,
     snd res = apply_events w [Ev clientSTS (Some err)] /\
     fst res = (Some (ErrorResponse (Error err)), None)) \/
  (exists err,
     snd res = apply_events w [Ev clientSTS None; Ev (GetSessionToken input) (Fail err)] /\
     fst res = (Some (ErrorResponse ("Error generating STS keys: " +:+ Error err)),
                CheckAWSError X err)) \/
  (exists creds now0 now resp s,
     snd res = apply_events w [Ev clientSTS None; Ev (GetSessionToken input) (Ok creds);
                               Ev timeNow now0; Ev timeNow now] /\
     fst res = (Some resp, None) /\ resp_Secret resp = Some s /\
     resp_Data resp !! "access_key" = Some (VString (AccessKeyId creds)) /\
     resp_Data resp !! "secret_key" = Some (VString (SecretAccessKey creds)) /\
     resp_Data resp !! "session_token" = Some (VString (SessionToken creds)) /\
     resp_Data resp !! "security_token" = None /\
     resp_Data resp !! "ttl"
       = Some (VUint64 (Seconds_uint64 X (time_Sub X (Expiration creds) now0))) /\
     TTL s = time_Sub X (Expiration creds) now /\
     InternalData s !! "username" = None).
Proof.
  intros input res. destruct res as [r w'] eqn:Hrun. unfold res in Hrun. clear res.
  unfold getSessionToken in Hrun. fold input in Hrun. cbn [fst snd].
  exec_head Hrun.
  all: first [ left; eexists; split; reflexivity
             | right; left; eexists; split; reflexivity
             | right; right; eexists _, _, _, _, _; repeat split ].
Qed.


(** ** Federation tokens: what is sent to the provider *)

Lemma federation_guard (policy : string) (policyARNs : list string) :
  bool_decide (policy = "") && (length policyARNs =? 0)%nat = false ->
  (if (0 <? String.length policy)%nat then Some policy else None) <> None \/
  (if (0 <? length policyARNs)%nat then convertPolicyARNs policyARNs else []) <> [].
Proof.
  destruct policy as [| c rest]; [| intros _; left; discriminate].
  destruct policyARNs as [| a arns]; [discriminate | intros _; right; discriminate].
Qed.

(** X8: whatever the collaborators answer, [getFederationToken] calls
    no token-issuing operation other than [GetFederationToken], calls it
    at most once, and every input it sends carries a policy document or
    at least one policy ARN, a name of at most 32 bytes and the duration
    it was given. *)
Theorem X8_federation_token_calls (X : Externals) (entropy : Entropy X) (o : Oracle) (w : World)
    (displayName policyName policy : string) (policyARNs iamGroups : list string)
    (lifeTimeInSeconds : Z) :
  let res := run o (getFederationToken X entropy displayName policyName policy policyARNs
                      iamGroups lifeTimeInSeconds) w in
  exists evs, snd res = apply_events w evs /\
    Forall (fun e => forall input, federation_input e = Some input ->
              (gft_Policy input <> None \/ gft_PolicyArns input <> []) /\
              (String.length (gft_Name input) <= 32)%nat /\
              gft_DurationSeconds input = lifeTimeInSeconds) evs /\
    Forall (fun e => token_issuing e = true -> federation_input e <> None) evs /\
    (length (List.filter token_issuing evs) <= 1)%nat.
Proof.
  intros res. destruct res as [r w'] eqn:Hrun. unfold res in Hrun. clear res.
  unfold getFederationToken in Hrun. cbn [fst snd].
  exec_head Hrun.
  all: eexists; split; [reify_world; reflexivity |].
  all: split; [| split; [| cbn; lia]].
  all: repeat first
         [ apply List.Forall_nil
         | apply List.Forall_cons;
           [ first
               [ intros input Hin; cbn in Hin;
                 first
                   [ discriminate Hin
                   | injection Hin as <-; cbn;
                     split;
                     [ match goal with
                       | H : _ && _ = false |- _ => exact (federation_guard _ _ H)
                       end
                     | split;
                       [ match goal with
                         | H : genUsername _ _ _ _ "sts" _ = Ok _ |- _ =>
                             exact (proj2 (genUsername_within_cap _ _ _ _ _ _ _ H) eq_refl)
                         end
                       | reflexivity ] ] ]
               | intros Hissuing; cbn in Hissuing |- *; first [discriminate Hissuing | discriminate] ]
           | ] ].
Qed.

(** ** Federation tokens: what the Secret carries *)

(** X9: a Secret returned by [getFederationToken] is built from the
    answer of its [GetFederationToken] call, which only the clock reading
    follows: the response carries the access key and the secret key of
    the answer, its session token under both [security_token] and
    [session_token], no [arn], and as [ttl] the whole seconds of the
    Secret's own TTL; the internal data records the name that was sent to
    the provider and the policy document that was sent (the empty string
    when none was). *)
Theorem X9_federation_token_payload (X : Externals) (entropy : Entropy X) (o : Oracle) (w : World)
    (displayName policyName policy : string) (policyARNs iamGroups : list string)
    (lifeTimeInSeconds : Z) (s : Secret) :
  let res := run o (getFederationToken X entropy displayName policyName policy policyARNs
                      iamGroups lifeTimeInSeconds) w in
  returns_secret (fst res) s ->
  exists pre input creds now resp,
    snd res = apply_events w
                (pre ++ [Ev (GetFederationToken input) (Ok creds); Ev timeNow now]) /\
    fst res = (Some resp, None) /\
    resp_Data resp !! "access_key" = Some (VString (AccessKeyId creds)) /\
    resp_Data resp !! "secret_key" = Some (VString (SecretAccessKey creds)) /\
    resp_Data resp !! "security_token" = Some (VString (SessionToken creds)) /\
    resp_Data resp !! "session_token" = Some (VString (SessionToken creds)) /\
    resp_Data resp !! "arn" = None /\
    resp_Data resp !! "ttl" = Some (VUint64 (Seconds_uint64 X (TTL s))) /\
    InternalData s !! "username" = Some (VString (gft_Name input)) /\
    InternalData s !! "policy" = Some (VString (default "" (gft_Policy input))).
Proof.
  intros res Hsecret. destruct res as [r w'] eqn:Hrun. unfold res in Hrun. clear res.
  unfold getFederationToken in Hrun. cbn [fst snd] in *.
  exec_head Hrun.
  all: try (no_secret Hsecret).
  all: destruct Hsecret as (resp & Hres & Hs); injection Hres as <-;
       cbn in Hs; injection Hs as <-.
  all: eexists [_; _; _], _, _, _, _; split; [reify_world; reflexivity |].
  all: repeat (split; [reflexivity |]).
  all: cbn; match goal with
            | |- context [String.length ?p] => destruct p; reflexivity
            end.
Qed.

Lemma X9_federation_token_payload_witness :
  let res := run all_ok (getFederationToken exampleX "" "alice" "readonly" "{}" [] [] 3600)
               empty_world in
  exists s,
    returns_secret (fst res) s /\
    exists pre input creds now resp,
      snd res = apply_events empty_world
                  (pre ++ [Ev (GetFederationToken input) (Ok creds); Ev timeNow now]) /\
      fst res = (Some resp, None) /\
      resp_Data resp !! "access_key" = Some (VString (AccessKeyId creds)) /\
      resp_Data resp !! "secret_key" = Some (VString (SecretAccessKey creds)) /\
      resp_Data resp !! "security_token" = Some (VString (SessionToken creds)) /\
      resp_Data resp !! "session_token" = Some (VString (SessionToken creds)) /\
      resp_Data resp !! "arn" = None /\
      resp_Data resp !! "ttl" = Some (VUint64 (Seconds_uint64 exampleX (TTL s))) /\
      InternalData s !! "username" = Some (VString (gft_Name input)) /\
      InternalData s !! "policy" = Some (VString (default "" (gft_Policy input))).
Proof.
  intros res. eexists. split; [eexists; split; reflexivity |].
  apply (X9_federation_token_payload exampleX "" all_ok empty_world
           "alice" "readonly" "{}" [] [] 3600).
  eexists. split; reflexivity.
Defined.

(** ** Assumed roles: what is sent and what the Secret carries *)


(** X11: a Secret returned by [assumeRole] is built from the answer of
    its [AssumeRole] call, which only the clock reading follows: the
    response carries the access key and the secret key of the answer, its
    session token under both [security_token] and [session_token], the
    ARN of the assumed-role user, and as [ttl] the whole seconds of the
    Secret's own TTL; the internal data records the session name that was
    sent and, under [policy], the role ARN. *)
Theorem X11_assume_role_payload (X : Externals) (entropy : Entropy X) (o : Oracle) (w : World)
    (displayName roleName roleArn policy : string)
    (policyARNs iamGroups : list string) (lifeTimeInSeconds : Z)
    (roleSessionName : string) (s : Secret) :
  let res := run o (assumeRole X entropy displayName roleName roleArn policy policyARNs
                      iamGroups lifeTimeInSeconds roleSessionName) w in
  returns_secret (fst res) s ->
  exists pre input answer now resp,
    snd res = apply_events w
                (pre ++ [Ev (AssumeRole input) (Ok answer); Ev timeNow now]) /\
    fst res = (Some resp, None) /\
    resp_Data resp !! "access_key"
      = Some (VString (AccessKeyId (aro_Credentials answer))) /\
    resp_Data resp !! "secret_key"
      = Some (VString (SecretAccessKey (aro_Credentials answer))) /\
    resp_Data resp !! "security_token"
      = Some (VString (SessionToken (aro_Credentials answer))) /\
    resp_Data resp !! "session_token"
      = Some (VString (SessionToken (aro_Credentials answer))) /\
    resp_Data resp !! "arn" = Some (VString (aro_Arn answer)) /\
    resp_Data resp !! "ttl" = Some (VUint64 (Seconds_uint64 X (TTL s))) /\
    InternalData s !! "username" = Some (VString (ar_RoleSessionName input)) /\
    InternalData s !! "policy" = Some (VString roleArn).
Proof.
  intros res Hsecret. destruct res as [r w'] eqn:Hrun. unfold res in Hrun. clear res.
  unfold assumeRole in Hrun. cbn [fst snd] in *.
  exec_head Hrun.
  all: try (no_secret Hsecret).
  all: destruct Hsecret as (resp & Hres & Hs); injection Hres as <-;
       cbn in Hs; injection Hs as <-.
  all: eexists [_; _; _], _, _, _, _; split; [reify_world; reflexivity |].
  all: repeat split.
Qed.

Lemma X11_assume_role_payload_witness :
  let res := run all_ok (assumeRole exampleX "" "alice" "deploy" "arn:aws:iam::1:role/deploy"
                           "" [] [] 3600 "") empty_world in
  exists s,
    returns_secret (fst res) s /\
    exists pre input answer now resp,
      snd res = apply_events empty_world
                  (pre ++ [Ev (AssumeRole input) (Ok answer); Ev timeNow now]) /\
      fst res = (Some resp, None) /\
      resp_Data resp !! "access_key"
        = Some (VString (AccessKeyId (aro_Credentials answer))) /\
      resp_Data resp !! "secret_key"
        = Some (VString (SecretAccessKey (aro_Credentials answer))) /\
      resp_Data resp !! "security_token"
        = Some (VString (SessionToken (aro_Credentials answer))) /\
      resp_Data resp !! "session_token"
        = Some (VString (SessionToken (aro_Credentials answer))) /\
      resp_Data resp !! "arn" = Some (VString (aro_Arn answer)) /\
      resp_Data resp !! "ttl" = Some (VUint64 (Seconds_uint64 exampleX (TTL s))) /\
      InternalData s !! "username" = Some (VString (ar_RoleSessionName input)) /\
      InternalData s !! "policy" = Some (VString "arn:aws:iam::1:role/deploy").
Proof.
  intros res. eexists. split; [eexists; split; reflexivity |].
  apply (X11_assume_role_payload exampleX "" all_ok empty_world
           "alice" "deploy" "arn:aws:iam::1:role/deploy" "" [] [] 3600 "").
  eexists. split; reflexivity.
Defined.

(** ** No issuance without a readable configuration *)

Lemma provisioning_not_config (e : Event) (u : string) :
  provisioning_user e = Some u ->
  config_read e = None /\ create_user_input e = None /\ token_issuing e = false.
Proof. destruct e as [T c t]. destruct c; cbn; intros; try discriminate; auto. Qed.

(** One branch of a run: the configuration read, if it failed, is the last
    event. *)
Ltac config_leaf :=
  eexists; split; [reify_world; reflexivity |];
  intros ? ? ? Hin Hread Hfail; cbn in Hin;
  repeat (destruct Hin as [<- | Hin]; [cbn in Hread; try discriminate Hread |]);
  try destruct Hin;
  injection Hread as <-; cbn in Hfail;
  first [ discriminate Hfail | congruence
        | injection Hfail as <-
        | match goal with
          | H : DecodeJSON _ _ = _ |- _ => rewrite H in Hfail; first [discriminate Hfail | injection Hfail as <-]
          end ];
  (split; [reflexivity |]); (split; [reflexivity |]);
  repeat constructor; intros [H | [H | H]]; cbn in H; congruence.

(** X12: in [getFederationToken] and in [assumeRole], a configuration
    that cannot be read or decoded ends the run: the read is the last
    call, its error is returned wrapped under the unable-to-read message
    with no response, and no call of the run has issued a token, changed
    a principal or written the ledger. *)
Theorem X12_unreadable_configuration_stops_sts (X : Externals) (entropy : Entropy X)
    (o : Oracle) (w : World)
    (displayName name roleArn policy roleSessionName : string)
    (policyARNs iamGroups : list string) (lifeTimeInSeconds : Z) :
  let stops_there (res : Returned * World) :=
    exists evs, snd res = apply_events w evs /\
      forall e r err,
        In e evs -> config_read e = Some (storageKey, r) -> config_of X r = Fail err ->
        fst res = (None, Some (Errorf "unable to read configuration: " err)) /\
        last evs = Some e /\
        Forall (fun x => ~ reaches_provider x) evs in
  stops_there (run o (getFederationToken X entropy displayName name policy policyARNs iamGroups
                  lifeTimeInSeconds) w) /\
  stops_there (run o (assumeRole X entropy displayName name roleArn policy policyARNs iamGroups
                  lifeTimeInSeconds roleSessionName) w).
Proof.
  intros stops_there. unfold stops_there. split.
  - destruct (run _ _ _) as [r w'] eqn:Hrun.
    unfold getFederationToken in Hrun. cbn [fst snd].
    exec_head Hrun.
    all: config_leaf.
  - destruct (run _ _ _) as [r w'] eqn:Hrun.
    unfold assumeRole in Hrun. cbn [fst snd].
    exec_head Hrun.
    all: config_leaf.
Qed.


(** ** Calls made in order until one fails *)

Lemma performs_nil (X : Externals) : performs X (mret tt) [].
Proof. intros o w. left. split; reflexivity. Qed.

(** One checked call performs the plan of that call. *)
Lemma performs_call (X : Externals) (c : Call (option error)) :
  performs X
    (err ← call c;
     check err (fun err =>
       (Some (ErrorResponse (step_message (Ev c None) +:+ Error err)),
        CheckAWSError X err)))
    [c].
Proof.
  intros o w. cbn. destruct (o _ c (trace w)) as [err |]; cbn.
  - right. exists [], c, [], err. repeat split.
  - left. split; reflexivity.
Qed.

(** Plans compose in sequence. *)
Lemma performs_seq (X : Externals) (m1 m2 : Fn unit)
    (plan1 plan2 : list (Call (option error))) :
  performs X m1 plan1 -> performs X m2 plan2 ->
  performs X (_ ← m1; m2) (plan1 ++ plan2).
Proof.
  intros H1 H2 o w. rewrite run_fn_bind.
  destruct (H1 o w) as [[Hf Hs] | (pre & c & post & err & -> & Hf & Hs)];
    rewrite Hf.
  - rewrite Hs.
    destruct (H2 o (apply_events w (map succeeded plan1)))
      as [[Hf2 Hs2] | (pre & c & post & err & -> & Hf2 & Hs2)].
    + left. split; [exact Hf2 |]. rewrite Hs2, map_app, apply_events_app. reflexivity.
    + right. exists (plan1 ++ pre), c, post, err.
      split; [rewrite <- app_assoc; reflexivity |]. split; [exact Hf2 |].
      rewrite Hs2, map_app, <- apply_events_app, <- app_assoc. reflexivity.
  - right. exists pre, c, (post ++ plan2), err.
    split; [rewrite <- app_assoc; reflexivity |]. split; [reflexivity | exact Hs].
Qed.

(** A loop of checked calls performs one call per element, in order. *)
Lemma performs_for_range (X : Externals) {A} (xs : list A) (body : A -> Fn unit)
    (mk : A -> Call (option error)) :
  (forall a, performs X (body a) [mk a]) ->
  performs X (for_range xs body) (map mk xs).
Proof.
  intros Hbody. induction xs as [| x rest IH]; cbn [for_range map].
  - apply performs_nil.
  - apply (performs_seq X (body x) (for_range rest body) [mk x] (map mk rest));
      [apply Hbody | exact IH].
Qed.


(** ** Durable-user issuance: the exact calls *)

Section Script.
Context (X : Externals) (order : MapOrder) (o : Oracle) (w : World).
Context (displayName policyName : string) (role : awsRoleEntry).
Context (r : result (option string)) (u id : string).

(** The world once the principal exists and the calls [done] succeeded. *)
Let reached (done : list (Call (option error))) : World :=
  apply_events w (created r u id role ++ map succeeded done).

(** One more part of the plan, from a world where the parts before it
    succeeded. *)
Lemma wp_provisioning_step (m : Fn unit) (k : Fn Returned)
    (done plan remaining : list (Call (option error))) :
  performs X m plan ->
  provisioning_plan order u policyName role = done ++ plan ++ remaining ->
  wp o k (reached (done ++ plan)) (script_post X order displayName policyName role w) ->
  wp o (_ ← m; k) (reached done) (script_post X order displayName policyName role w).
Proof.
  intros Hm Hplan Hk. unfold wp. rewrite run_fn_bind.
  destruct (Hm o (reached done)) as [[Hf Hs] | (pre & c & post & err & -> & Hf & Hs)];
    rewrite Hf.
  - rewrite Hs. unfold reached at 1 2.
    rewrite <- apply_events_app, <- app_assoc, <- map_app. exact Hk.
  - cbn [fst snd]. rewrite Hs. right. exists r, u, id.
    exists (map succeeded (done ++ pre) ++ [Ev c (Some err)]). split.
    + unfold reached. rewrite <- apply_events_app, <- !app_assoc, map_app,
        <- app_assoc. reflexivity.
    + apply (prov_stopped X order u id policyName role (done ++ pre) c (post ++ remaining)).
      rewrite Hplan, <- !app_assoc. reflexivity.
Qed.

End Script.

(** Every run of [secretAccessKeysCreate] follows the script. *)
Lemma create_script (X : Externals) (entropy : Entropy X) (order : MapOrder)
    (o : Oracle) (w : World)
    (displayName policyName : string) (role : awsRoleEntry) :
  script_post X order displayName policyName role w
    (inl (fst (run o (secretAccessKeysCreate X entropy order displayName policyName role) w)))
    (snd (run o (secretAccessKeysCreate X entropy order displayName policyName role) w)).
Proof.
  unfold secretAccessKeysCreate. rewrite run_func.
  match goal with
  | |- context [run o ?b w] =>
      enough (wp o b w (script_post X order displayName policyName role w)) as Hwp
  end.
  { unfold wp in Hwp. cbn [fst snd].
    unfold script_post in *. destruct (fst (run o _ w)); exact Hwp. }
  assert (forall evs ret,
            Forall (fun e => user_created e = None) evs ->
            (forall s, ~ returns_secret ret s) ->
            script_post X order displayName policyName role w (inl ret) (apply_events w evs))
    as Hearly.
  { intros evs ret Hevs Hret. left. exists evs. auto. }
  assert (forall text err s, ~ returns_secret (Some (ErrorResponse text), err) s) as Hresp.
  { intros text err s (resp & Hres & Hs). injection Hres as <- _. discriminate. }
  assert (forall err s, ~ returns_secret (None, err) s) as Hnil.
  { intros err s (resp & Hres & Hs). discriminate. }
  apply wp_bind, wp_call. cbv beta iota.
  destruct (o _ clientIAM (trace w)) as [err |] eqn:E1; cbn [check].
  { apply wp_bind, wp_return. reify_world. apply Hearly; [forall_list | apply Hresp]. }
  apply wp_bind, wp_ret. apply wp_bind, wp_readConfig. cbv zeta beta iota.
  set (r := o _ (storageGet storageKey) _).
  destruct (config_of X r) as [config | err] eqn:Hconfig; cbn [or_return].
  2:{ apply wp_bind, wp_return. reify_world. apply Hearly; [forall_list | apply Hnil]. }
  apply wp_bind, wp_ret. fold (template_of X config).
  destruct (genUsername X entropy displayName policyName "iam_user" (template_of X config))
    as [u | err] eqn:Hname; cbn [or_return].
  2:{ apply wp_bind, wp_return. reify_world. apply Hearly; [forall_list | apply Hnil]. }
  apply wp_bind, wp_ret. apply wp_bind, wp_call. cbv beta iota.
  match goal with
  | |- context [or_return ?a _] => destruct a as [id | err] eqn:E2
  end; cbn [or_return].
  2:{ apply wp_bind, wp_return. reify_world. apply Hearly; [forall_list | apply Hnil]. }
  apply wp_bind, wp_ret. fold (create_request u role).
  apply wp_bind, wp_call. cbv beta iota.
  match goal with
  | |- context [match ?a with Some _ => _ | None => _ end ≫= _] =>
      destruct a as [err |] eqn:E3
  end.
  { apply wp_bind, wp_bind, wp_call. cbv beta iota.
    match goal with
    | |- context [match ?a with Some _ => _ | None => _ end] =>
        destruct a as [walErr |] eqn:E4
    end; apply wp_return; reify_world;
      (apply Hearly; [forall_list | first [apply Hnil | apply Hresp]]). }
  apply wp_bind, wp_ret. clear Hearly E1 E2 E3.
  change (step (step (step (step w clientIAM None) (storageGet storageKey) r)
                  (PutWAL "user" {| wal_UserName := u |}) (Ok id))
            (CreateUser (create_request u role)) None)
    with (apply_events w (created r u id role ++ map succeeded [])).
  set (p1 := map (AttachUserPolicy u) (PolicyArns role)).
  set (p2 := if bool_decide (PolicyDocument role = "") then []
             else [PutUserPolicy u policyName (PolicyDocument role)]).
  set (p3 := map (AddUserToGroup u) (IAMGroups role)).
  set (p4 := if (0 <? length (range_map order (IAMTags role)))%nat
             then [TagUser (range_map order (IAMTags role)) u] else []).
  assert (provisioning_plan order u policyName role = p1 ++ p2 ++ p3 ++ p4) as Hplan
    by reflexivity.
  apply (wp_provisioning_step X order o w displayName policyName role r u id _ _
           [] p1 (p2 ++ p3 ++ p4)); [| exact Hplan |].
  { apply performs_for_range. intros arn. exact (performs_call X (AttachUserPolicy u arn)). }
  apply (wp_provisioning_step X order o w displayName policyName role r u id _ _
           ([] ++ p1) p2 (p3 ++ p4)); [| exact Hplan |].
  { subst p2. destruct (bool_decide (PolicyDocument role = ""));
      [apply performs_nil | exact (performs_call X (PutUserPolicy u policyName _))]. }
  apply (wp_provisioning_step X order o w displayName policyName role r u id _ _
           (([] ++ p1) ++ p2) p3 p4).
  { apply performs_for_range. intros group.
    exact (performs_call X (AddUserToGroup u group)). }
  { rewrite Hplan. cbn [app]. rewrite <- app_assoc. reflexivity. }
  apply (wp_provisioning_step X order o w displayName policyName role r u id _ _
           ((([] ++ p1) ++ p2) ++ p3) p4 []).
  { subst p4. destruct (0 <? length (range_map order (IAMTags role)))%nat;
      [exact (performs_call X (TagUser _ u)) | apply performs_nil]. }
  { rewrite Hplan, app_nil_r. cbn [app]. rewrite <- !app_assoc. reflexivity. }
  replace (((([] ++ p1) ++ p2) ++ p3) ++ p4) with (provisioning_plan order u policyName role)
    by (rewrite Hplan; cbn [app]; rewrite <- !app_assoc; reflexivity).
  clear p1 p2 p3 p4 Hplan.
  apply wp_bind, wp_call. cbv beta iota. rewrite apply_events_step.
  match goal with
  | |- context [or_return ?a _] => destruct a as [keyResp | err] eqn:E5
  end; cbn [or_return].
  2:{ apply wp_bind, wp_return. right. exists r, u, id. eexists. split.
      - rewrite <- app_assoc. reflexivity.
      - apply prov_key_failed. }
  apply wp_bind, wp_ret.
  apply wp_bind, wp_call. cbv beta iota. rewrite apply_events_step.
  match goal with
  | |- context [check ?a _] => destruct a as [err |] eqn:E6
  end; cbn [check].
  { apply wp_bind, wp_return. right. exists r, u, id. eexists. split.
    - rewrite <- !app_assoc. reflexivity.
    - apply prov_commit_failed. }
  apply wp_bind, wp_ret. apply wp_bind, wp_call. cbv beta iota.
  rewrite apply_events_step. apply wp_return.
  match goal with
  | |- context [Ev b_Lease ?a] => set (lease := a)
  end.
  right. exists r, u, id.
  exists (map succeeded (provisioning_plan order u policyName role) ++
          [Ev (CreateAccessKey u) (Ok keyResp); Ev (DeleteWAL id) None; Ev b_Lease lease]).
  split.
  - rewrite <- !app_assoc. reflexivity.
  - exact (prov_success X order u id policyName role keyResp lease).
Qed.



(** ** Durable-user issuance: order, payload and ledger *)

Lemma plan_calls (order : MapOrder) (u policyName : string) (role : awsRoleEntry)
    (c : Call (option error)) (t : option error) :
  In c (provisioning_plan order u policyName role) ->
  provisioning_user (Ev c t) = Some u /\
  user_created (Ev c t) = None /\
  wal_begun (Ev c t) = None /\
  wal_delete (Ev c t) = None /\
  (forall m, wal_effect c t m = m).
Proof.
  unfold provisioning_plan. rewrite !in_app_iff, !in_map_iff.
  intros [(arn & <- & _) | [Hdoc | [(group & <- & _) | Htags]]].
  - repeat split.
  - destruct (bool_decide (PolicyDocument role = "")); [destruct Hdoc |].
    destruct Hdoc as [<- | []]. repeat split.
  - repeat split.
  - destruct (0 <? length (range_map order (IAMTags role)))%nat; [| destruct Htags].
    destruct Htags as [<- | []]. repeat split.
Qed.

(** A property of the successful events of a plan, call by call. *)
Lemma plan_events (order : MapOrder) (u policyName : string) (role : awsRoleEntry)
    (P : Event -> Prop) (calls : list (Call (option error))) :
  (forall c, In c calls -> In c (provisioning_plan order u policyName role)) ->
  (forall c, In c (provisioning_plan order u policyName role) -> P (succeeded c)) ->
  Forall P (map succeeded calls).
Proof.
  intros Hsub HP. apply List.Forall_forall. intros x Hx.
  apply in_map_iff in Hx as (c & <- & Hc). auto.
Qed.

(** The tags reach the provider in the order of the run: two runs that
    differ in nothing but the order in which the runtime ranges over the
    tag map send different [TagUser] requests. *)
Example tag_order_is_of_the_run :
  provisioning_plan stored_order "vault-IAM-alice" "readonly" taggedRole
  <> provisioning_plan reverse_order "vault-IAM-alice" "readonly" taggedRole /\
  trace (snd (run all_ok (secretAccessKeysCreate exampleX "" stored_order
                            "alice" "readonly" taggedRole) empty_world))
  <> trace (snd (run all_ok (secretAccessKeysCreate exampleX "" reverse_order
                               "alice" "readonly" taggedRole) empty_world)).
Proof. split; vm_compute; discriminate. Qed.

(** X13: once [CreateUser] has succeeded, [secretAccessKeysCreate]
    makes the provisioning calls in a fixed order: one [AttachUserPolicy]
    per policy ARN of the role, [PutUserPolicy] if the role has a policy
    document, one [AddUserToGroup] per group, [TagUser] if the role has
    tags.  The one [TagUser] call carries the entries of the tag map of
    the role, each once, in the order in which this run ranges over the
    map, which is not the same from run to run.  Either one of the calls
    fails: it is then the last call, every call before it succeeded and
    its error is the result.  Or all of them succeed and
    [CreateAccessKey] follows, after which no call changes a
    principal. *)
Theorem X13_provisioning_order (X : Externals) (entropy : Entropy X) (order : MapOrder)
    (o : Oracle) (w : World) (displayName policyName : string) (role : awsRoleEntry) :
  let res := run o (secretAccessKeysCreate X entropy order displayName policyName role) w in
  range_map order (IAMTags role) ≡ₚ map_to_list (IAMTags role) /\
  exists evs, snd res = apply_events w evs /\
    forall pre e post u,
      evs = pre ++ e :: post -> user_created e = Some u ->
      (exists p c q err,
         provisioning_plan order u policyName role = p ++ c :: q /\
         post = map succeeded p ++ [Ev c (Some err)] /\
         fst res = step_failure X c err) \/
      (exists key tail,
         post = map succeeded (provisioning_plan order u policyName role) ++
                Ev (CreateAccessKey u) key :: tail /\
         Forall (fun e => mutating_user e = None) tail).
Proof.
  intros res. split; [apply range_map_entries |].
  destruct (create_script X entropy order o w displayName policyName role)
    as [(evs & Hw & Hnone & _) | (r & u0 & id & rest & Hw & Hout)]; fold res in Hw.
  - exists evs. split; [exact Hw |]. intros pre e post u Hsplit Hcreated. exfalso.
    apply in_split_elem in Hsplit. rewrite List.Forall_forall in Hnone.
    specialize (Hnone e Hsplit). congruence.
  - exists (created r u0 id role ++ rest). split; [exact Hw |].
    intros pre e post u Hsplit Hcreated. cbn [fst] in Hout. fold res in Hout.
    assert (forall calls,
              (forall c, In c calls -> In c (provisioning_plan order u0 policyName role)) ->
              Forall (fun x => user_created x = None) (map succeeded calls)) as Hplan.
    { intros calls Hsub. apply (plan_events order u0 policyName role _ calls Hsub).
      intros c Hc. apply (plan_calls order u0 policyName role c None Hc). }
    assert (Forall (fun x => user_created x = None) rest) as Hrest.
    { destruct Hout as [p c q err Hp | err | key err | key lease].
      - apply Forall_app. split; [| forall_list].
        + apply Hplan. intros c' Hc'. rewrite Hp. apply in_or_app. left. exact Hc'.
        + apply (plan_calls order u0 policyName role c (Some err)).
          rewrite Hp. apply in_or_app. right. left. reflexivity.
      - apply Forall_app. split; [apply Hplan; auto | forall_list].
      - apply Forall_app. split; [apply Hplan; auto | forall_list].
      - apply Forall_app. split; [apply Hplan; auto | forall_list]. }
    unfold created in Hsplit. rewrite <- app_assoc in Hsplit.
    destruct (split_past (fun x => user_created x <> None) _ _ _ _ _ Hsplit)
      as (pre2 & -> & Hrest2); [unfold begun; forall_list | congruence |].
    destruct pre2 as [| x pre2]; cbn in Hrest2.
    2:{ exfalso. injection Hrest2 as _ Hrest2. apply in_split_elem in Hrest2.
        rewrite List.Forall_forall in Hrest. specialize (Hrest e Hrest2). congruence. }
    injection Hrest2 as <- <-. cbn in Hcreated. injection Hcreated as <-.
    destruct Hout as [p c q err Hp | err | key err | key lease].
    + left. exists p, c, q, err. repeat split. exact Hp.
    + right. eexists _, []. split; [reflexivity | constructor].
    + right. eexists _, [_]. split; [reflexivity | forall_list].
    + right. eexists _, [_; _]. split; [reflexivity | forall_list].
Qed.

(** ** The request that creates the principal *)


(** ** Where the name of the principal comes from *)

(** X15: every principal that an issuance creates or provisions is
    named as [genUsername] renders, for the kind [iam_user], the template
    of the configuration read in the same run; when no configuration is
    stored this is the default template. *)
Theorem X15_principal_name_provenance (X : Externals) (entropy : Entropy X) (order : MapOrder)
    (o : Oracle) (w : World)
    (displayName policyName : string) (role : awsRoleEntry) :
  let res := run o (secretAccessKeysCreate X entropy order displayName policyName role) w in
  exists evs, snd res = apply_events w evs /\
    forall e u,
      In e evs -> mutating_user e = Some u ->
      exists r config,
        In (Ev (storageGet storageKey) r) evs /\
        config_of X r = Ok config /\
        genUsername X entropy displayName policyName "iam_user" (template_of X config) = Ok u /\
        (r = Ok None -> template_of X config = defaultUserNameTemplate X).
Proof.
  intros res.
  destruct (create_outcome X entropy order o w displayName policyName role) as (evs & Hw & Hout).
  exists evs. split; [exact Hw |]. intros e u' Hin Hmut.
  assert (forall r config u,
            config_of X r = Ok config ->
            genUsername X entropy displayName policyName "iam_user" (template_of X config) = Ok u ->
            In (Ev (storageGet storageKey) r) evs -> u' = u ->
            exists r config,
              In (Ev (storageGet storageKey) r) evs /\
              config_of X r = Ok config /\
              genUsername X entropy displayName policyName "iam_user" (template_of X config)
              = Ok u' /\
              (r = Ok None -> template_of X config = defaultUserNameTemplate X))
    as Hfound.
  { intros r config u Hconfig Hu Hr ->. exists r, config. repeat split; try assumption.
    intros ->. cbn in Hconfig. injection Hconfig as <-. reflexivity. }
  assert (forall r u id l, In (Ev (storageGet storageKey) r) (begun r u id ++ l)) as Hbegun.
  { intros. right. left. reflexivity. }
  assert (forall r u id l l', In (Ev (storageGet storageKey) r)
                                 ((created r u id role ++ l) ++ l')) as Hcreated.
  { intros. unfold created. rewrite <- !app_assoc. apply Hbegun. }
  assert (forall u steps x, Forall (provisioned u) steps -> In x steps ->
            mutating_user x = Some u) as Hsteps.
  { intros u steps x H Hx. rewrite List.Forall_forall in H.
    destruct (H x Hx) as [Hu _]. apply provisioning_is_mutating, Hu. }
  destruct Hout; unfold created, begun in Hin; rewrite ?in_app_iff in Hin; cbn in Hin.
  all: repeat match goal with
         | H : _ \/ _ |- _ => destruct H as [H | H]
         | H : False |- _ => destruct H
         end.
  all: subst; cbn in Hmut; try discriminate Hmut.
  all: try (eapply Hfound; [eassumption | eassumption | first [apply Hbegun | apply Hcreated] |];
            first [ congruence
                  | match goal with
                    | Hs : Forall (provisioned _) ?steps, Hx : In _ ?steps |- _ =>
                        pose proof (Hsteps _ _ _ Hs Hx); congruence
                    end
                  | match goal with
                    | Hp : provisioning_user ?x = Some _ |- _ =>
                        pose proof (provisioning_is_mutating _ _ Hp); congruence
                    end ]).
Qed.

(** ** The ledger of a durable-user issuance: what it leaves alone *)

(** Events that neither write nor delete the ledger entry [id] leave it
    as it was. *)
Lemma wal_frame (w : World) (evs : list Event) (id : string) :
  Forall (fun e => ledger_id_written e <> Some id /\ ledger_id_deleted e <> Some id) evs ->
  wal (apply_events w evs) !! id = wal w !! id.
Proof.
  intros H. revert w. induction H as [| e evs [Hw Hd] _ IH]; intros w; [reflexivity |].
  cbn. unfold apply_events in IH. rewrite IH. cbn.
  destruct e as [T c t]. destruct c; try reflexivity; cbn in *.
  - destruct t as [id' | err]; [| reflexivity].
    apply lookup_insert_ne. cbn in Hw. congruence.
  - destruct t as [err |]; [reflexivity |].
    apply lookup_delete_ne. congruence.
Qed.

(** Every ledger id an issuance asks to delete was answered by a ledger
    write earlier in the same run. *)
Lemma deletes_own_entry (X : Externals) (entropy : Entropy X) (displayName policyName : string)
    (role : awsRoleEntry) (res : Returned) (evs : list Event) :
  CreateOutcome X entropy displayName policyName role res evs ->
  forall pre e post id,
    evs = pre ++ e :: post -> ledger_id_deleted e = Some id ->
    exists p, In p pre /\ ledger_id_written p = Some id.
Proof.
  intros Hout pre e post id' Hsplit Hdel.
  assert (forall u steps, Forall (provisioned u) steps ->
            Forall (fun x => ~ ledger_id_deleted x <> None) steps) as Hsteps.
  { intros u steps H. eapply Forall_impl; [exact H |].
    intros x [Hx _] Hneq. apply Hneq. unfold ledger_id_deleted.
    rewrite (proj1 (proj2 (provisioning_not_ledger x u Hx))). reflexivity. }
  assert (forall l, Forall (fun x => ~ ledger_id_deleted x <> None) l ->
            evs = l -> False) as Hnone.
  { intros l Hl ->. apply in_split_elem in Hsplit.
    rewrite List.Forall_forall in Hl. apply (Hl e Hsplit). congruence. }
  assert (forall r u id, In (Ev (PutWAL "user" {| wal_UserName := u |}) (Ok id))
                            (begun r u id)) as Hbegun.
  { intros. right. right. left. reflexivity. }
  destruct Hout.
  - exfalso. eapply Hnone; [| reflexivity]. forall_list.
  - exfalso. eapply Hnone; [| reflexivity]. forall_list.
  - exfalso. eapply Hnone; [| reflexivity]. forall_list.
  - exfalso. eapply Hnone; [| reflexivity]. forall_list.
  - change (begun r u id ++ [Ev (CreateUser (create_request u role)) (Some err);
                              Ev (DeleteWAL id) d])
      with (begun r u id ++ [Ev (CreateUser (create_request u role)) (Some err)] ++
            [Ev (DeleteWAL id) d]) in Hsplit.
    rewrite app_assoc in Hsplit.
    destruct (split_past (fun x => ledger_id_deleted x <> None) _ _ _ _ _ Hsplit)
      as (pre2 & -> & Hlast); [unfold begun; forall_list | congruence |].
    apply split_last in Hlast as (_ & _ & ->). cbn in Hdel. injection Hdel as <-.
    exists (Ev (PutWAL "user" {| wal_UserName := u |}) (Ok id)).
    split; [| reflexivity]. apply in_or_app. left. apply in_or_app. left.
    apply Hbegun.
  - exfalso. eapply Hnone; [| reflexivity].
    apply Forall_app. split; [apply Forall_app; split |].
    + unfold created, begun. forall_list.
    + eauto.
    + constructor; [| constructor]. intros Hneq. apply Hneq. unfold ledger_id_deleted.
      rewrite (proj1 (proj2 (provisioning_not_ledger e0 u ltac:(eassumption)))).
      reflexivity.
  - destruct (split_past (fun x => ledger_id_deleted x <> None) _ _ _ _ _ Hsplit)
      as (pre2 & -> & Hlast); [| congruence |].
    { apply Forall_app. split; [unfold created, begun; forall_list | eauto]. }
    apply split_last in Hlast as (_ & _ & ->). cbn in Hdel. injection Hdel as <-.
    exists (Ev (PutWAL "user" {| wal_UserName := u |}) (Ok id)).
    split; [| reflexivity]. apply in_or_app. left. apply in_or_app. left.
    apply in_or_app. left. apply Hbegun.
  - destruct (split_past (fun x => ledger_id_deleted x <> None) _ _ _ _ _ Hsplit)
      as (pre2 & -> & Hlast); [| congruence |].
    { apply Forall_app. split; [unfold created, begun; forall_list | eauto]. }
    destruct pre2 as [| x pre2]; cbn in Hlast.
    + injection Hlast as <- _. cbn in Hdel. injection Hdel as <-.
      exists (Ev (PutWAL "user" {| wal_UserName := u |}) (Ok id)).
    split; [| reflexivity]. apply in_or_app. left. apply in_or_app. left.
      apply in_or_app. left. apply Hbegun.
    + injection Hlast as _ Hlast. apply split_last in Hlast as (_ & _ & ->).
      discriminate.
Qed.

(** X16: an issuance asks to delete only a ledger id that a ledger
    write answered earlier in the same run, and every entry of the log
    under an id that no ledger write of the run answered is as it was
    before the run. *)
Theorem X16_ledger_frame (X : Externals) (entropy : Entropy X) (order : MapOrder)
    (o : Oracle) (w : World)
    (displayName policyName : string) (role : awsRoleEntry) :
  let res := run o (secretAccessKeysCreate X entropy order displayName policyName role) w in
  exists evs, snd res = apply_events w evs /\
    (forall pre e post id,
       evs = pre ++ e :: post -> ledger_id_deleted e = Some id ->
       exists p, In p pre /\ ledger_id_written p = Some id) /\
    (forall id,
       Forall (fun e => ledger_id_written e <> Some id) evs ->
       wal (snd res) !! id = wal w !! id).
Proof.
  intros res.
  destruct (create_outcome X entropy order o w displayName policyName role) as (evs & Hw & Hout).
  fold res in Hw, Hout. exists evs. split; [exact Hw |].
  pose proof (deletes_own_entry X entropy displayName policyName role _ _ Hout) as Hown.
  split; [exact Hown |].
  intros id Hid. rewrite Hw. apply wal_frame.
  apply List.Forall_forall. intros e He. rewrite List.Forall_forall in Hid.
  split; [exact (Hid e He) |]. intros Hdel.
  apply in_split in He as (pre & post & Hsplit).
  destruct (Hown pre e post id Hsplit Hdel) as (p & Hp & Hwritten).
  apply (Hid p); [| exact Hwritten].
  rewrite Hsplit. apply in_or_app. left. exact Hp.
Qed.


(** A failed configuration read is the last call of an issuance. *)
Lemma create_needs_config (X : Externals) (entropy : Entropy X) (displayName policyName : string)
    (role : awsRoleEntry) (res : Returned) (evs : list Event) :
  CreateOutcome X entropy displayName policyName role res evs ->
  forall e r err,
    In e evs -> config_read e = Some (storageKey, r) -> config_of X r = Fail err ->
    res = (None, Some (Errorf "unable to read configuration: " err)) /\
    last evs = Some e /\
    Forall (fun x => ~ reaches_provider x) evs.
Proof.
  intros Hout e r0 err0 Hin Hread Hfail.
  assert (forall u steps x, Forall (provisioned u) steps -> In x steps ->
            config_read x = None) as Hsteps.
  { intros u steps x H Hx. rewrite List.Forall_forall in H.
    destruct (H x Hx) as [Hu _]. apply (provisioning_not_config x u Hu). }
  destruct Hout; unfold created, begun in Hin; rewrite ?in_app_iff in Hin; cbn in Hin.
  all: repeat match goal with
         | H : _ \/ _ |- _ => destruct H as [H | H]
         | H : False |- _ => destruct H
         end.
  all: subst; cbn in Hread.
  all: try discriminate Hread.
  all: try (injection Hread as <-; congruence).
  all: try match goal with
         | Hs : Forall (provisioned _) ?steps, Hx : In _ ?steps |- _ =>
             rewrite (Hsteps _ _ _ Hs Hx) in Hread; discriminate Hread
         end.
  all: try match goal with
         | Hp : provisioning_user ?x = Some ?u |- _ =>
             rewrite (proj1 (provisioning_not_config x u Hp)) in Hread; discriminate Hread
         end.
  assert (err0 = err) as -> by congruence.
  split; [reflexivity |]. split; [reflexivity |].
  repeat constructor; intros [H' | [H' | H']]; cbn in H'; congruence.
Qed.

(** X17: in [secretAccessKeysCreate], a configuration that cannot be
    read or decoded ends the run: the read is the last call, its error is
    returned wrapped under the unable-to-read message with no response,
    and no call of the run has changed a principal or written the
    ledger. *)
Theorem X17_unreadable_configuration_stops_creation (X : Externals) (entropy : Entropy X) (order : MapOrder)
    (o : Oracle)
    (w : World) (displayName policyName : string) (role : awsRoleEntry) :
  let res := run o (secretAccessKeysCreate X entropy order displayName policyName role) w in
  exists evs, snd res = apply_events w evs /\
    forall e r err,
      In e evs -> config_read e = Some (storageKey, r) -> config_of X r = Fail err ->
      fst res = (None, Some (Errorf "unable to read configuration: " err)) /\
      last evs = Some e /\
      Forall (fun x => ~ reaches_provider x) evs.
Proof.
  intros res.
  destruct (create_outcome X entropy order o w displayName policyName role) as (evs & Hw & Hout).
  exists evs. split; [exact Hw |].
  apply (create_needs_config X entropy displayName policyName role _ _ Hout).
Qed.

(** ** Durable-user issuance: what the Secret carries *)

Lemma create_payload (X : Externals) (entropy : Entropy X) (order : MapOrder)
    (o : Oracle) (w : World)
    (displayName policyName : string) (role : awsRoleEntry) (s : Secret) :
  let res := run o (secretAccessKeysCreate X entropy order displayName policyName role) w in
  returns_secret (fst res) s ->
  exists r u id key lease,
    snd res = apply_events w
                (created r u id role ++
                 map succeeded (provisioning_plan order u policyName role) ++
                 [Ev (CreateAccessKey u) (Ok key); Ev (DeleteWAL id) None;
                  Ev b_Lease lease]) /\
    fst res = (Some (issued_response X u role key (lease_or_zero lease)), None) /\
    s = issued_secret X u role (lease_or_zero lease).
Proof.
  intros res Hsecret.
  destruct (create_script X entropy order o w displayName policyName role)
    as [(evs & _ & _ & Hnone) | (r & u & id & rest & Hw & Hout)].
  - destruct (Hnone s Hsecret).
  - cbn [fst] in Hout. fold res in Hw, Hout.
    destruct Hsecret as (resp & Hres & Hs).
    destruct Hout as [p c q err Hp | err | key err | key lease];
      try (injection Hres; intros; subst; discriminate); try discriminate.
    injection Hres as <-. cbn in Hs. injection Hs as <-.
    exists r, u, id, key, lease. repeat split. exact Hw.
Qed.

(** X18: a Secret returned by [secretAccessKeysCreate] comes at the
    end of a complete run: the principal is created, every provisioning
    call of the role succeeds, in the order of the run, the access key is
    created, the ledger entry is deleted and the lease is read.  The
    response carries the access key and the secret key that
    [CreateAccessKey] answered, a nil [session_token] and no
    [security_token]; the internal data of the Secret records the name of
    the created principal under [username], the role under [policy] and
    false under [is_sts]. *)
Theorem X18_issuance_payload (X : Externals) (entropy : Entropy X) (order : MapOrder)
    (o : Oracle) (w : World) (displayName policyName : string) (role : awsRoleEntry)
    (s : Secret) :
  let res := run o (secretAccessKeysCreate X entropy order displayName policyName role) w in
  returns_secret (fst res) s ->
  exists pre input key id lease resp,
    snd res = apply_events w
                (pre ++ Ev (CreateUser input) None ::
                 map succeeded
                   (provisioning_plan order (cu_UserName input) policyName role) ++
                 [Ev (CreateAccessKey (cu_UserName input)) (Ok key);
                  Ev (DeleteWAL id) None; Ev b_Lease lease]) /\
    fst res = (Some resp, None) /\
    resp_Data resp !! "access_key" = Some (VString (ak_AccessKeyId key)) /\
    resp_Data resp !! "secret_key" = Some (VString (ak_SecretAccessKey key)) /\
    resp_Data resp !! "session_token" = Some VNil /\
    resp_Data resp !! "security_token" = None /\
    InternalData s !! "username" = Some (VString (cu_UserName input)) /\
    InternalData s !! "policy" = Some (VRole role) /\
    InternalData s !! "is_sts" = Some (VBool false).
Proof.
  intros res Hsecret.
  destruct (create_payload X entropy order o w displayName policyName role s Hsecret)
    as (r & u & id & key & lease & Hw & Hres & ->). fold res in Hw, Hres.
  exists (begun r u id), (create_request u role), key, id, lease.
  eexists. split; [| split; [exact Hres |]].
  - rewrite Hw. unfold created. rewrite <- app_assoc. reflexivity.
  - repeat split.
Qed.

Lemma X18_issuance_payload_witness :
  let res := run all_ok (secretAccessKeysCreate exampleX "" stored_order
                           "alice" "readonly" exampleRole) empty_world in
  exists s,
    returns_secret (fst res) s /\
    exists pre input key id lease resp,
      snd res = apply_events empty_world
                  (pre ++ Ev (CreateUser input) None ::
                   map succeeded
                     (provisioning_plan stored_order (cu_UserName input)
                        "readonly" exampleRole) ++
                   [Ev (CreateAccessKey (cu_UserName input)) (Ok key);
                    Ev (DeleteWAL id) None; Ev b_Lease lease]) /\
      fst res = (Some resp, None) /\
      resp_Data resp !! "access_key" = Some (VString (ak_AccessKeyId key)) /\
      resp_Data resp !! "secret_key" = Some (VString (ak_SecretAccessKey key)) /\
      resp_Data resp !! "session_token" = Some VNil /\
      resp_Data resp !! "security_token" = None /\
      InternalData s !! "username" = Some (VString (cu_UserName input)) /\
      InternalData s !! "policy" = Some (VRole exampleRole) /\
      InternalData s !! "is_sts" = Some (VBool false).
Proof.
  intros res. eexists. split; [eexists; split; reflexivity |].
  apply (X18_issuance_payload exampleX "" stored_order all_ok empty_world
           "alice" "readonly" exampleRole).
  eexists. split; reflexivity.
Defined.

(** ** Issued Secrets under renew and revoke *)

Lemma revoke_sts (o : Oracle) (w : World) (secret : Secret) :
  InternalData secret !! "is_sts" = Some (VBool true) ->
  run o (secretAccessKeysRevoke secret) w = ((None, None), w).
Proof. intros H. unfold secretAccessKeysRevoke. rewrite H. reflexivity. Qed.

Lemma renew_sts (o : Oracle) (w : World) (secret : Secret) :
  InternalData secret !! "is_sts" = Some (VBool true) ->
  run o (secretAccessKeysRenew secret) w = ((None, None), w).
Proof. intros H. unfold secretAccessKeysRenew. rewrite H. reflexivity. Qed.

(** Revoke looks at nothing but the internal data. *)
Lemma revoke_reads_internal_data (s1 s2 : Secret) :
  InternalData s1 = InternalData s2 ->
  secretAccessKeysRevoke s1 = secretAccessKeysRevoke s2.
Proof. intros H. unfold secretAccessKeysRevoke. rewrite H. reflexivity. Qed.

(** X19: revoking the Secret of a successful issuance, under any
    collaborators and in any world, makes exactly one call: the user
    rollback of kind [user] for the principal that the one successful
    [CreateUser] of the issuance created; its answer is the result. *)
Theorem X19_revoke_targets_created_principal (X : Externals) (entropy : Entropy X) (order : MapOrder)
    (o o' : Oracle)
    (w w' : World) (displayName policyName : string) (role : awsRoleEntry) (s : Secret) :
  let res := run o (secretAccessKeysCreate X entropy order displayName policyName role) w in
  returns_secret (fst res) s ->
  exists pre e post u,
    trace (snd res) = trace w ++ pre ++ e :: post /\
    user_created e = Some u /\
    Forall (fun x => user_created x = None) (pre ++ post) /\
    let c := pathUserRollback "user" {[ "username" := VString u ]} in
    run o' (secretAccessKeysRevoke s) w'
    = ((None, o' _ c (trace w')), step w' c (o' _ c (trace w'))).
Proof.
  intros res Hsecret.
  destruct (create_payload X entropy order o w displayName policyName role s Hsecret)
    as (r & u & id & key & lease & Hw & _ & ->). fold res in Hw.
  exists (begun r u id), (Ev (CreateUser (create_request u role)) None).
  eexists. exists u. split; [| split; [reflexivity | split]].
  - rewrite Hw, trace_apply_events. unfold created. rewrite <- !app_assoc. reflexivity.
  - apply Forall_app. split; [unfold begun; forall_list |].
    apply Forall_app. split; [| forall_list].
    apply (plan_events order u policyName role _ _ (fun c H => H)).
    intros c Hc. apply (plan_calls order u policyName role c None Hc).
  - intros c. rewrite (revoke_username o' w'); [reflexivity |]. right. reflexivity.
Qed.

Lemma X19_revoke_targets_created_principal_witness :
  let res := run all_ok (secretAccessKeysCreate exampleX "" stored_order
        "alice" "readonly" exampleRole)
               empty_world in
  exists s,
    returns_secret (fst res) s /\
    exists pre e post u,
      trace (snd res) = trace empty_world ++ pre ++ e :: post /\
      user_created e = Some u /\
      Forall (fun x => user_created x = None) (pre ++ post) /\
      let c := pathUserRollback "user" {[ "username" := VString u ]} in
      run create_fails (secretAccessKeysRevoke s) (snd res)
      = ((None, create_fails _ c (trace (snd res))),
         step (snd res) c (create_fails _ c (trace (snd res)))).
Proof.
  intros res. eexists. split; [eexists; split; reflexivity |].
  apply (X19_revoke_targets_created_principal exampleX "" stored_order
           all_ok create_fails empty_world
           (snd res) "alice" "readonly" exampleRole).
  eexists. split; reflexivity.
Defined.

(** X20: a Secret returned by [getFederationToken], [getSessionToken]
    or [assumeRole] needs no cleanup: on it, revoke and renew both return
    no response and no error, and call no collaborator. *)
Theorem X20_sts_secrets_need_no_cleanup (X : Externals) (entropy : Entropy X)
    (o o' : Oracle) (w w' : World)
    (displayName name roleArn policy serialNumber mfaCode roleSessionName : string)
    (policyARNs iamGroups : list string) (lifeTimeInSeconds : Z) (s : Secret) :
  returns_secret (fst (run o (getFederationToken X entropy displayName name policy policyARNs
                                iamGroups lifeTimeInSeconds) w)) s \/
  returns_secret (fst (run o (getSessionToken X serialNumber mfaCode
                                lifeTimeInSeconds) w)) s \/
  returns_secret (fst (run o (assumeRole X entropy displayName name roleArn policy policyARNs
                                iamGroups lifeTimeInSeconds roleSessionName) w)) s ->
  run o' (secretAccessKeysRevoke s) w' = ((None, None), w') /\
  run o' (secretAccessKeysRenew s) w' = ((None, None), w').
Proof.
  intros Hissued.
  assert (InternalData s !! "is_sts" = Some (VBool true)) as Hsts.
  { destruct Hissued as [H | [H | H]].
    - apply (federation_secret X entropy o w _ _ _ _ _ _ s H).
    - apply (session_secret X o w _ _ _ s H).
    - apply (assume_role_secret X entropy o w _ _ _ _ _ _ _ _ s H). }
  split; [apply revoke_sts | apply renew_sts]; exact Hsts.
Qed.

Lemma X20_sts_secrets_need_no_cleanup_witness :
  exists s,
    returns_secret
      (fst (run all_ok (getSessionToken exampleX "" "" 3600) empty_world)) s /\
    run lease_fails (secretAccessKeysRevoke s) empty_world = ((None, None), empty_world) /\
    run lease_fails (secretAccessKeysRenew s) empty_world = ((None, None), empty_world).
Proof.
  eexists. split; [eexists; split; reflexivity |].
  apply (X20_sts_secrets_need_no_cleanup exampleX "" all_ok lease_fails empty_world
           empty_world "" "" "" "" "" "" "" [] [] 3600).
  right. left. eexists. split; reflexivity.
Defined.

(** X21: the Secret that renew returns keeps the internal data and the
    renewable flag of the Secret it was given; so revoking it does
    exactly what revoking the original does, and renewing it again reads
    the lease configuration again. *)
Theorem X21_renewed_secret_stays_revocable (o o' : Oracle) (w w' : World)
    (secret s' : Secret) :
  returns_secret (fst (run o (secretAccessKeysRenew secret) w)) s' ->
  InternalData s' = InternalData secret /\
  Renewable s' = Renewable secret /\
  run o' (secretAccessKeysRevoke s') w' = run o' (secretAccessKeysRevoke secret) w' /\
  run o' (secretAccessKeysRenew s') w'
  = (renewed s' (o' _ b_Lease (trace w')), step w' b_Lease (o' _ b_Lease (trace w'))).
Proof.
  intros (resp & Hres & Hs).
  assert (InternalData secret !! "is_sts" = Some (VBool true) \/
          InternalData secret !! "is_sts" <> Some (VBool true)) as [Hsts | Hsts].
  { destruct (InternalData secret !! "is_sts") as [[| [|] | | |] |];
      first [left; reflexivity | right; congruence]. }
  { rewrite (renew_sts o w secret Hsts) in Hres. discriminate. }
  rewrite (renew_not_sts o w secret Hsts) in Hres. cbn [fst snd] in *.
  unfold renewed in Hres.
  destruct (o _ b_Lease (trace w)) as [lease | err]; [| discriminate].
  injection Hres as <-. cbn in Hs. injection Hs as <-.
  split; [reflexivity |]. split; [reflexivity |]. split.
  - rewrite (revoke_reads_internal_data _ secret); reflexivity.
  - apply renew_not_sts. exact Hsts.
Qed.

Lemma X21_renewed_secret_stays_revocable_witness :
  exists s',
    returns_secret (fst (run all_ok (secretAccessKeysRenew durable_secret) empty_world)) s' /\
    InternalData s' = InternalData durable_secret /\
    Renewable s' = Renewable durable_secret /\
    run all_ok (secretAccessKeysRevoke s') empty_world
    = run all_ok (secretAccessKeysRevoke durable_secret) empty_world /\
    run all_ok (secretAccessKeysRenew s') empty_world
    = (renewed s' (all_ok _ b_Lease (trace empty_world)),
       step empty_world b_Lease (all_ok _ b_Lease (trace empty_world))).
Proof.
  eexists. split; [eexists; split; reflexivity |].
  apply (X21_renewed_secret_stays_revocable all_ok all_ok empty_world empty_world
           durable_secret).
  eexists. split; reflexivity.
Defined.

(** * Properties of the names of the marshaling types *)

Section MarshalingTypeNames.
Context (bits : nat) (signed : bool).
Hypothesis at_least_a_byte : (8 <= bits)%nat.

(** Small values are values of every integer type. *)
Lemma in_type_small (z : Z) : 0 <= z <= 127 -> in_type bits signed z = z.
Proof.
  intros Hz. unfold in_type.
  assert (2 ^ 7 <= 2 ^ (Z.of_nat bits - 1)) as Hhalf
    by (apply Z.pow_le_mono_r; lia).
  assert (2 ^ Z.of_nat bits = 2 * 2 ^ (Z.of_nat bits - 1)) as Hfull.
  { replace (Z.of_nat bits) with (Z.succ (Z.of_nat bits - 1)) at 1 by lia.
    apply Z.pow_succ_r. lia. }
  change (2 ^ 7) with 128 in Hhalf.
  destruct signed.
  - rewrite Z.mod_small by lia. lia.
  - apply Z.mod_small. lia.
Qed.

(** The names of the two listed values. *)
Lemma String_listed (v : Z) :
  In v MarshalingTypeValues ->
  MarshalingType_String bits signed v
  = Some (if v =? 1 then "asn1" else "jws").
Proof.
  intros [<- | [<- | []]]; unfold MarshalingType_String; cbv zeta.
  - rewrite (in_type_small (1 - 1)) by lia. change (1 - 1 + 1) with 1.
    rewrite (in_type_small 1) by lia. reflexivity.
  - rewrite (in_type_small (2 - 1)) by lia. change (2 - 1 + 1) with 2.
    rewrite (in_type_small 2) by lia. reflexivity.
Qed.

(** The three ways a lookup in the name table can go. *)
Lemma MarshalingTypeString_cases (s : string) :
  (s = "asn1" /\ MarshalingTypeString s = (1, None)) \/
  (s = "jws" /\ MarshalingTypeString s = (2, None)) \/
  (s <> "asn1" /\ s <> "jws" /\
   MarshalingTypeString s
   = (0, Some (ErrorString (s +:+ " does not belong to MarshalingType values")))).
Proof.
  unfold MarshalingTypeString, _MarshalingTypeNameToValueMap.
  change (substring 0 4 _MarshalingTypeName) with "asn1".
  change (substring 4 3 _MarshalingTypeName) with "jws".
  destruct (decide (s = "asn1")) as [-> | H1].
  { left. rewrite lookup_insert_eq. auto. }
  destruct (decide (s = "jws")) as [-> | H2].
  { right. left. rewrite lookup_insert_ne by discriminate. rewrite lookup_insert_eq. auto. }
  right. right. rewrite !lookup_insert_ne by congruence. rewrite lookup_empty. auto.
Qed.

(** X22: a name that [MarshalingTypeString] accepts is the name of the
    value it returns: [String] gives the name back, and the value is one
    of the listed values of the enum.  This holds whatever integer type
    of at least eight bits [MarshalingType] is declared as. *)
Theorem X22_marshaling_type_name_round_trip (s : string) (v : Z) :
  MarshalingTypeString s = (v, None) ->
  MarshalingType_String bits signed v = Some s /\
  IsAMarshalingType v = true /\ In v MarshalingTypeValues.
Proof.
  intros Hs.
  destruct (MarshalingTypeString_cases s) as [[-> H] | [[-> H] | (_ & _ & H)]];
    rewrite H in Hs; try discriminate; injection Hs as <-.
  - split; [apply (String_listed 1); left; reflexivity |].
    split; [reflexivity | left; reflexivity].
  - split; [apply (String_listed 2); right; left; reflexivity |].
    split; [reflexivity | right; left; reflexivity].
Qed.

(** X23: every value that [IsAMarshalingType] accepts is one of the
    values that [MarshalingTypeValues] lists; on it [String] returns a
    name, within the bounds of the index table and of the name string,
    and [MarshalingTypeString] maps that name back to the value. *)
Theorem X23_marshaling_type_value_round_trip (v : Z) :
  IsAMarshalingType v = true ->
  In v MarshalingTypeValues /\
  exists s, MarshalingType_String bits signed v = Some s /\
            MarshalingTypeString s = (v, None).
Proof.
  unfold IsAMarshalingType, _MarshalingTypeValues. intros Hv.
  destruct (Z.eqb_spec v 1) as [H1 | H1].
  { rewrite H1. split; [left; reflexivity |]. exists "asn1".
    split; [apply (String_listed 1); left; reflexivity | reflexivity]. }
  destruct (Z.eqb_spec v 2) as [H2 | H2]; [| discriminate].
  rewrite H2. split; [right; left; reflexivity |]. exists "jws".
  split; [apply (String_listed 2); right; left; reflexivity | reflexivity].
Qed.

(** X24: when [MarshalingTypeString] returns an error, the value
    returned with it is 0, which is not a value of the enum; the text of
    the error is the argument followed by the does-not-belong message;
    and the argument is the name of no listed value. *)
Theorem X24_marshaling_type_unknown_name (s : string) (v : Z) (err : error) :
  MarshalingTypeString s = (v, Some err) ->
  v = 0 /\ IsAMarshalingType v = false /\
  Error err = s +:+ " does not belong to MarshalingType values" /\
  forall v', In v' MarshalingTypeValues -> MarshalingType_String bits signed v' <> Some s.
Proof.
  intros Hs.
  destruct (MarshalingTypeString_cases s) as [[-> H] | [[-> H] | (H1 & H2 & H)]];
    rewrite H in Hs; try discriminate. injection Hs as <- <-.
  split; [reflexivity |]. split; [reflexivity |]. split; [reflexivity |].
  intros v' Hv'. rewrite (String_listed v' Hv').
  destruct (v' =? 1); congruence.
Qed.

(** X25: a value from 3 to 127 is not a value of the enum; [String]
    prints it as [MarshalingType(v)], with [v] in decimal, and
    [MarshalingTypeString] does not accept that text back. *)
Theorem X25_marshaling_type_unlisted_value (v : Z) :
  3 <= v <= 127 ->
  IsAMarshalingType v = false /\
  MarshalingType_String bits signed v = Some (Sprintf_MarshalingType v) /\
  snd (MarshalingTypeString (Sprintf_MarshalingType v)) <> None.
Proof.
  intros Hv. split; [| split].
  - unfold IsAMarshalingType, _MarshalingTypeValues.
    destruct (Z.eqb_spec v 1); [lia |]. destruct (Z.eqb_spec v 2); [lia | reflexivity].
  - unfold MarshalingType_String. rewrite (in_type_small (v - 1)) by lia.
    cbn [_MarshalingTypeIndex length].
    destruct (Z.leb_spec (Z.of_nat 3 - 1) (v - 1)) as [_ | Hlt]; [| lia].
    replace (v - 1 + 1) with v by lia. rewrite (in_type_small v) by lia. reflexivity.
  - destruct (MarshalingTypeString_cases (Sprintf_MarshalingType v))
      as [[H _] | [[H _] | (_ & _ & ->)]]; [discriminate H | discriminate H | discriminate].
Qed.

End MarshalingTypeNames.

Lemma X22_marshaling_type_name_round_trip_witness :
  MarshalingType_String 32 false 2 = Some "jws" /\
  IsAMarshalingType 2 = true /\ In 2 MarshalingTypeValues.
Proof.
  apply (X22_marshaling_type_name_round_trip 32 false); [lia | reflexivity].
Defined.

Lemma X23_marshaling_type_value_round_trip_witness :
  In 1 MarshalingTypeValues /\
  exists s, MarshalingType_String 8 true 1 = Some s /\ MarshalingTypeString s = (1, None).
Proof.
  apply (X23_marshaling_type_value_round_trip 8 true); [lia | reflexivity].
Defined.

Lemma X24_marshaling_type_unknown_name_witness :
  0 = 0 /\ IsAMarshalingType 0 = false /\
  Error (ErrorString "ASN1 does not belong to MarshalingType values")
  = "ASN1" +:+ " does not belong to MarshalingType values" /\
  forall v', In v' MarshalingTypeValues -> MarshalingType_String 32 false v' <> Some "ASN1".
Proof.
  apply (X24_marshaling_type_unknown_name 32 false); [lia | reflexivity].
Defined.

Lemma X25_marshaling_type_unlisted_value_witness :
  IsAMarshalingType 3 = false /\
  MarshalingType_String 32 false 3 = Some (Sprintf_MarshalingType 3) /\
  snd (MarshalingTypeString (Sprintf_MarshalingType 3)) <> None.
Proof.
  apply (X25_marshaling_type_unlisted_value 32 false); lia.
Defined.

(** The zero value is outside the enum: decremented, it wraps around in
    an unsigned type and is printed by number; in a signed type it
    becomes a negative index. *)
Example String_of_zero_unsigned :
  MarshalingType_String 32 false 0 = Some "MarshalingType(0)".
Proof. reflexivity. Qed.

Example String_of_zero_signed : MarshalingType_String 32 true 0 = None.
Proof. reflexivity. Qed.
